(** * grpc-proxy-study: the route matcher, the envelope processor and the
      foreign crypto wrappers of [go-proxy/proxy], embedded in Rocq.

    Source files followed here:
    - [go-proxy/proxy/main.go]: [bytesCodec], [matchRoute], the two pumps of
      [transparentHandler], [processMsg], [getBytesField], [getStringField],
      [findDescByType];
    - [go-proxy/proxy/crypto.go]: [RustVerifySignature], [RustSignPayload].

    The protobuf reflection library ([jhump/protoreflect]), Go's [crypto]
    packages and the Rust library behind [cryptolib.h] are not part of the
    Go sources: they enter as interfaces ([DynamicLib], [CryptoLib]).  A
    small wire-level implementation of the reflection interface
    ([Module Wire]) is used to run the processor on concrete frames. *)

From Stdlib Require Import Strings.Byte Strings.Ascii Strings.String.
From stdpp Require Import base option list strings gmap.

Set Default Proof Using "Type".
Open Scope string_scope.
Open Scope list_scope.

(** Go's [[]byte]; the nil slice and the empty slice are both [[]]. *)
Abbreviation bytes := (list byte).

(** ** Go's [strings] package, as used by the proxy *)

Module GoStrings.

(** [strings.HasPrefix(s, prefix)]:
    [len(s) >= len(prefix) && s[:len(prefix)] == prefix]. *)
Definition HasPrefix (s prefix : string) : bool :=
  (String.length prefix <=? String.length s)%nat
  && String.eqb (String.substring 0 (String.length prefix) s) prefix.

(** [strings.HasSuffix(s, suffix)]:
    [len(s) >= len(suffix) && s[len(s)-len(suffix):] == suffix]. *)
Definition HasSuffix (s suffix : string) : bool :=
  (String.length suffix <=? String.length s)%nat
  && String.eqb
       (String.substring (String.length s - String.length suffix)
                  (String.length suffix) s)
       suffix.

(** [strings.TrimSuffix(s, suffix)]: [s] without the trailing [suffix],
    or [s] itself when it does not end with it. *)
Definition TrimSuffix (s suffix : string) : string :=
  if HasSuffix s suffix
  then String.substring 0 (String.length s - String.length suffix) s
  else s.

(** The last element of [strings.Split(s, sep)] for a one-character
    separator: what follows the last [sep], or all of [s]. *)
Fixpoint lastSegment_aux (sep : Ascii.ascii) (s acc : string) : string :=
  match s with
  | EmptyString => acc
  | String c s' =>
      if Ascii.eqb c sep then lastSegment_aux sep s' s'
      else lastSegment_aux sep s' acc
  end.

Definition lastSegment (sep : Ascii.ascii) (s : string) : string :=
  lastSegment_aux sep s s.

End GoStrings.

Import GoStrings.

(** ** Configuration types ([main.go], lines 36-75) *)

Record EnvelopeConfig := mkEnvelope {
  PayloadField   : string;
  TypeURLField   : string;
  ClientSigField : string;
  ProxySigField  : string;
  MetadataField  : string;
}.

Record RouteConfig := mkRoute {
  Match    : string;
  Mode     : string;   (* pass-thru, inspect-outer, inspect-verify-sign *)
  Envelope : EnvelopeConfig;
}.

(** The zero value of [EnvelopeConfig]: every field name empty. *)
Definition emptyEnvelope : EnvelopeConfig := mkEnvelope "" "" "" "" "".

(** [&RouteConfig{Mode: "pass-thru"}]. *)
Definition defaultRoute : RouteConfig := mkRoute "" "pass-thru" emptyEnvelope.

(** ** The route matcher ([main.go], lines 203-218) *)

(** The test made on one rule inside the loop. *)
Definition routeMatches (matchPattern methodName : string) : bool :=
  if HasSuffix matchPattern "/*"
  then HasPrefix methodName (TrimSuffix matchPattern "/*")
  else String.eqb matchPattern methodName.

Fixpoint matchRoute (routes : list RouteConfig) (methodName : string)
  : RouteConfig :=
  match routes with
  | [] => defaultRoute
  | route :: rest =>
      if routeMatches (Match route) methodName then route
      else matchRoute rest methodName
  end.

(** ** Observable effects

    [processMsg] and the FFI wrappers write log lines and call into
    libraries.  Both are recorded, in program order, in the trace of a
    writer monad; what a function returns is the first component. *)

(** The [log.Printf] sites of [processMsg] and of [crypto.go]; [dir] is
    ["Request"] or ["Response"]. *)
Inductive LogLine :=
| NoDescriptorLoaded (dir method : string)                (* main.go:313 *)
| FailedUnmarshal (dir method : string)                   (* main.go:328 *)
| EnvelopeDump (dir method js : string)                   (* main.go:334 *)
| InnerPayloadDecoded (dir typeURL js : string)           (* main.go:350 *)
| RustVerified (dir : string) (lenSig lenPayload : nat)   (* main.go:366 *)
| RustVerificationFailed (dir : string)                   (* main.go:368 *)
| NoClientSigOrTrustStore (dir : string)                  (* main.go:371,388 *)
| RustSigning (dir : string)                              (* main.go:375 *)
| NoProxyPrivateKey (dir : string)                        (* main.go:378,401 *)
| GoVerifying (dir : string) (lenSig lenPayload : nat)    (* main.go:386 *)
| GoSigning (dir : string)                                (* main.go:392 *)
| FailedToSign (dir : string)                             (* main.go:396 *)
| CouldNotSetProxySig (dir : string)                      (* main.go:409 *)
| FailedMarshal (dir : string)                            (* main.go:416 *)
| RustFFISignFailed.                                      (* crypto.go:62 *)

(** Calls that decode or encode a frame, or that reach a crypto backend. *)
Inductive LibCall :=
| Dyn_Unmarshal (data : bytes)                        (* dynamic.Message.Unmarshal *)
| Dyn_Marshal                                         (* dynamic.Message.Marshal *)
| Go_SignPKCS1v15 (hashed : bytes)                    (* rsa.SignPKCS1v15 *)
| FFI_verify_signature (payload sig pubKey : bytes)   (* C.verify_signature *)
| FFI_sign_payload (payload privKey : bytes)          (* C.sign_payload *)
| FFI_free_signature.                                 (* C.free_signature *)

Inductive Event :=
| Log (l : LogLine)
| Call (c : LibCall).

Definition M (A : Type) : Type := A * list Event.

Global Instance M_ret : MRet M := λ A a, (a, []).
Global Instance M_bind : MBind M := λ A B f m,
  let '(a, t1) := m in let '(b, t2) := f a in (b, t1 ++ t2).

Global Arguments M_ret : simpl never.
Global Arguments M_bind : simpl never.

Definition logPrintf (l : LogLine) : M unit := (tt, [Log l]).
Definition call (c : LibCall) : M unit := (tt, [Call c]).

(** What was returned, and what was observed on the way. *)
Definition result {A} (m : M A) : A := m.1.
Definition trace {A} (m : M A) : list Event := m.2.

Definition is_decode (e : Event) : bool :=
  match e with Call (Dyn_Unmarshal _) => true | _ => false end.

Definition is_encode (e : Event) : bool :=
  match e with Call Dyn_Marshal => true | _ => false end.

Definition is_ffi (e : Event) : bool :=
  match e with
  | Call (FFI_verify_signature _ _ _) | Call (FFI_sign_payload _ _)
  | Call FFI_free_signature => true
  | _ => false
  end.

(** A verification verdict of either engine: the foreign verify was
    called, or its outcome was logged. *)
Definition is_verify (e : Event) : bool :=
  match e with
  | Call (FFI_verify_signature _ _ _) => true
  | Log (RustVerified _ _ _) | Log (RustVerificationFailed _) => true
  | _ => false
  end.

(** No event of the trace [t] is of the kind [P]. *)
Definition quiet (P : Event → bool) (t : list Event) : Prop :=
  Forall (λ e, P e = false) t.

(** ** The raw-bytes codec ([main.go], lines 93-114) *)

(** The [interface{}] argument of the codec: a [*[]byte], or anything
    else (named by its type). *)
Inductive GoValue :=
| BytesPtr (b : bytes)
| OtherValue (ty : string).

Definition bytesCodec_Marshal (v : GoValue) : string + bytes :=
  match v with
  | BytesPtr b => inr b
  | OtherValue ty => inl ("expected *[]byte, got " +:+ ty)
  end.

(** [*b = append([]byte(nil), data...)]: the handle receives a copy. *)
Definition bytesCodec_Unmarshal (data : bytes) (v : GoValue) : string + GoValue :=
  match v with
  | BytesPtr _ => inr (BytesPtr ([] ++ data))
  | OtherValue ty => inl ("expected *[]byte, got " +:+ ty)
  end.

Definition bytesCodec_Name : string := "proto".

(** ** Library interfaces *)

(** A field value as [TryGetFieldByName] returns it in an [interface{}]:
    the processor only tells [[]byte] and [string] from the rest. *)
Inductive Value :=
| VBytes (b : bytes)
| VString (s : string)
| VOther.

(** [github.com/jhump/protoreflect]: [desc.MessageDescriptor] and
    [dynamic.Message].  Errors are [None]. *)
Class DynamicLib := {
  MessageDescriptor : Type;
  Message : Type;
  GetFullyQualifiedName : MessageDescriptor → string;
  NewMessage : MessageDescriptor → Message;
  GetMessageDescriptor : Message → MessageDescriptor;
  Unmarshal : Message → bytes → option Message;
  MarshalJSONIndent : Message → string;
  TryGetFieldByName : Message → string → option Value;
  TrySetFieldByName : Message → string → Value → option Message;
  Marshal : Message → option bytes;
}.

(** [desc.MethodDescriptor]. *)
Record MethodDescriptor `{DynamicLib} := mkMethod {
  GetInputType : MessageDescriptor;
  GetOutputType : MessageDescriptor;
}.

(** Go's [crypto/sha256] and [crypto/rsa], and the two entry points of
    [rust-crypto/cryptolib.h].  [rsa.SignPKCS1v15] is called with a nil
    random source and the SHA-256 identifier: what is left is a function of
    the key and the digest.  [sign_payload] returns its success flag and
    the out-pointer ([None] for a null pointer); the length and capacity
    out-parameters are those of the returned bytes. *)
Class CryptoLib := {
  PrivateKey : Type;
  CertPool : Type;
  sha256_Sum256 : bytes → bytes;
  rsa_SignPKCS1v15 : PrivateKey → bytes → option bytes;
  verify_signature : bytes → bytes → bytes → bool;
  sign_payload : bytes → bytes → bool * option bytes;
}.

(** ** The proxy *)

Section Proxy.
Context `{DynamicLib} `{CryptoLib}.

(** The package-level variables of [main.go] (lines 79-91), as they
    stand once [main] has loaded the configuration: read-only from then
    on. *)
Record Globals := mkGlobals {
  appConfig_Routes   : list RouteConfig;
  methodDescriptors  : gmap string MethodDescriptor;
  clientTrustPool    : option CertPool;     (* nil when no trust store *)
  proxyPrivateKey    : option PrivateKey;   (* nil when no key *)
  clientPublicKeyPEM : bytes;
  proxyPrivateKeyPEM : bytes;
  cryptoEngine       : string;
}.

(** *** Foreign crypto wrappers ([crypto.go]) *)

(** [RustVerifySignature], lines 17-37. *)
Definition RustVerifySignature (payload sig pubKeyPEM : bytes) : M bool :=
  if (length payload =? 0)%nat || (length sig =? 0)%nat || (length pubKeyPEM =? 0)%nat
  then mret false
  else
    call (FFI_verify_signature payload sig pubKeyPEM);;
    mret (verify_signature payload sig pubKeyPEM).

(** [RustSignPayload], lines 40-74; [None] is the nil slice it returns
    on failure. *)
Definition RustSignPayload (payload privKeyPEM : bytes) : M (option bytes) :=
  if (length payload =? 0)%nat || (length privKeyPEM =? 0)%nat
  then mret None
  else
    call (FFI_sign_payload payload privKeyPEM);;
    match sign_payload payload privKeyPEM with
    | (true, Some cOutSig) =>
        let sigBytes := cOutSig in           (* C.GoBytes: a copy *)
        call FFI_free_signature;;
        mret (Some sigBytes)
    | _ =>
        logPrintf RustFFISignFailed;;
        mret None
    end.

(** A [[]byte] variable assigned from a function that may return nil. *)
Definition sliceOf (r : option bytes) : bytes := default [] r.

(** *** Field helpers ([main.go], lines 424-452) *)

Definition getBytesField (msg : Message) (fieldName : string) : bytes :=
  if String.eqb fieldName "" then []
  else match TryGetFieldByName msg fieldName with
       | None => []
       | Some (VBytes b) => b
       | Some _ => []
       end.

Definition getStringField (msg : Message) (fieldName : string) : string :=
  if String.eqb fieldName "" then ""
  else match TryGetFieldByName msg fieldName with
       | None => ""
       | Some (VString s) => s
       | Some _ => ""
       end.

(** *** Inner-type lookup ([main.go], lines 455-466)

    Go ranges over the map in an unspecified order; the order of
    [map_to_list] stands for it.  The result only feeds a log line.  A
    method descriptor always has an output type, so the source's nil test
    on it is always passed. *)
Fixpoint findDescByType_in (mds : list (string * MethodDescriptor))
    (suffixName : string) : option MessageDescriptor :=
  match mds with
  | [] => None
  | (_, md) :: rest =>
      if HasSuffix (GetFullyQualifiedName (GetInputType md)) suffixName
      then Some (GetInputType md)
      else if HasSuffix (GetFullyQualifiedName (GetOutputType md)) suffixName
      then Some (GetOutputType md)
      else findDescByType_in rest suffixName
  end.

Definition findDescByType (g : Globals) (suffixName : string)
  : option MessageDescriptor :=
  findDescByType_in (map_to_list (methodDescriptors g)) suffixName.

(** *** The envelope processor ([main.go], lines 305-421) *)

(** Lines 340-353: best-effort decoding of the inner payload, for the
    log only. *)
Definition inspectInner (g : Globals) (dir : string)
    (payloadBytes : bytes) (typeURL : string) : M unit :=
  if negb (length payloadBytes =? 0)%nat && negb (String.eqb typeURL "") then
    let typeSiffx := lastSegment "/" typeURL in
    match findDescByType g typeSiffx with
    | Some innerMsgDesc =>
        let innerDynMsg := NewMessage innerMsgDesc in
        call (Dyn_Unmarshal payloadBytes);;
        match Unmarshal innerDynMsg payloadBytes with
        | Some innerDynMsg =>
            logPrintf (InnerPayloadDecoded dir typeURL
                         (MarshalJSONIndent innerDynMsg))
        | None => mret tt
        end
    | None => mret tt
    end
  else mret tt.

(** Lines 359-380: the branch [cryptoEngine == "rust"]; returns
    [proxySigBytes]. *)
Definition rustEngine (g : Globals) (dir : string)
    (payloadBytes clientSig : bytes) : M bytes :=
  (if negb (length clientSig =? 0)%nat && negb (length (clientPublicKeyPEM g) =? 0)%nat
   then
     ok ← RustVerifySignature payloadBytes clientSig (clientPublicKeyPEM g);
     if ok : bool
     then logPrintf (RustVerified dir (length clientSig) (length payloadBytes))
     else logPrintf (RustVerificationFailed dir)
   else logPrintf (NoClientSigOrTrustStore dir));;
  if negb (length (proxyPrivateKeyPEM g) =? 0)%nat then
    logPrintf (RustSigning dir);;
    r ← RustSignPayload payloadBytes (proxyPrivateKeyPEM g);
    mret (sliceOf r)
  else
    logPrintf (NoProxyPrivateKey dir);;
    mret (list_byte_of_string "proxy_signed_" ++ payloadBytes).

(** Lines 381-404: the pure-Go branch; returns [proxySigBytes], which
    stays nil when signing fails. *)
Definition goEngine (g : Globals) (dir : string)
    (payloadBytes clientSig : bytes) : M bytes :=
  (if negb (length clientSig =? 0)%nat && bool_decide (is_Some (clientTrustPool g))
   then logPrintf (GoVerifying dir (length clientSig) (length payloadBytes))
   else logPrintf (NoClientSigOrTrustStore dir));;
  match proxyPrivateKey g with
  | Some key =>
      logPrintf (GoSigning dir);;
      let hashed := sha256_Sum256 payloadBytes in
      call (Go_SignPKCS1v15 hashed);;
      match rsa_SignPKCS1v15 key hashed with
      | None => logPrintf (FailedToSign dir);; mret []
      | Some sig => mret sig
      end
  | None =>
      logPrintf (NoProxyPrivateKey dir);;
      mret (list_byte_of_string "proxy_signed_" ++ payloadBytes)
  end.

Definition processMsg (g : Globals) (method : string) (isReq : bool)
    (payload : bytes) (route : RouteConfig) : M bytes :=
  let dir := if isReq then "Request" else "Response" in
  match methodDescriptors g !! method with
  | None =>
      logPrintf (NoDescriptorLoaded dir method);;
      mret payload
  | Some md =>
      let msgDesc := if isReq then GetInputType md else GetOutputType md in
      (* 1. unmarshal into the dynamic message *)
      let dynMsg := NewMessage msgDesc in
      call (Dyn_Unmarshal payload);;
      match Unmarshal dynMsg payload with
      | None =>
          logPrintf (FailedUnmarshal dir method);;
          mret payload
      | Some dynMsg =>
          logPrintf (EnvelopeDump dir method (MarshalJSONIndent dynMsg));;
          (* 2. the fields named by the route *)
          let payloadBytes := getBytesField dynMsg (PayloadField (Envelope route)) in
          let typeURL := getStringField dynMsg (TypeURLField (Envelope route)) in
          inspectInner g dir payloadBytes typeURL;;
          if String.eqb (Mode route) "inspect-verify-sign" then
            let clientSig := getBytesField dynMsg (ClientSigField (Envelope route)) in
            proxySigBytes ←
              (if String.eqb (cryptoEngine g) "rust"
               then rustEngine g dir payloadBytes clientSig
               else goEngine g dir payloadBytes clientSig);
            (* 3. inject the proxy signature *)
            match TrySetFieldByName dynMsg (ProxySigField (Envelope route))
                    (VBytes proxySigBytes) with
            | None =>
                logPrintf (CouldNotSetProxySig dir);;
                mret payload
            | Some dynMsg =>
                (* 4. re-serialize *)
                call Dyn_Marshal;;
                match Marshal dynMsg with
                | Some newPayload => mret newPayload
                | None =>
                    logPrintf (FailedMarshal dir);;
                    mret payload
                end
            end
          else mret payload
      end
  end.

(** *** The pumps of [transparentHandler] ([main.go], lines 249-283)

    One iteration of either loop, between a successful [RecvMsg] and the
    [SendMsg]: [data] is the frame the transport delivered, the result is
    the frame handed back to the transport (or the codec's error).
    [isReq] is [true] in the client-to-server pump. *)
Definition pumpFrame (g : Globals) (fullMethodName : string)
    (route : RouteConfig) (isReq : bool) (data : bytes) : M (string + bytes) :=
  match bytesCodec_Unmarshal data (BytesPtr []) with
  | inr (BytesPtr payload) =>
      payload ←
        (if negb (String.eqb (Mode route) "pass-thru")
         then processMsg g fullMethodName isReq payload route
         else mret payload);
      mret (bytesCodec_Marshal (BytesPtr payload))
  | inr (OtherValue ty) => mret (inl ty)
  | inl err => mret (inl err)
  end.

(** The frames a pump forwards for the frames it receives, in order,
    on the route picked at line 226. *)
Fixpoint pump (g : Globals) (fullMethodName : string) (isReq : bool)
    (inbox : list bytes) : M (list (string + bytes)) :=
  match inbox with
  | [] => mret []
  | data :: rest =>
      let route := matchRoute (appConfig_Routes g) fullMethodName in
      out ← pumpFrame g fullMethodName route isReq data;
      outs ← pump g fullMethodName isReq rest;
      mret (out :: outs)
  end.

(** *** Vocabulary for the properties

    None of the following is program code: these definitions name the
    intermediate values of [processMsg] so that its properties can be
    stated. *)

(** The descriptor [processMsg] resolves (lines 311-322) and the message
    it decodes the frame into (lines 325-326). *)
Definition resolveDescriptor (g : Globals) (method : string) (isReq : bool)
  : option MessageDescriptor :=
  md ← methodDescriptors g !! method;
  Some (if isReq then GetInputType md else GetOutputType md).

Definition decodeFrame (g : Globals) (method : string) (isReq : bool)
    (frame : bytes) : option Message :=
  msgDesc ← resolveDescriptor g method isReq;
  Unmarshal (NewMessage msgDesc) frame.

(** The signing stage of lines 355-404 on a decoded message. *)
Definition signingStage (g : Globals) (isReq : bool) (route : RouteConfig)
    (dynMsg : Message) : M bytes :=
  let dir := if isReq then "Request" else "Response" in
  let payloadBytes := getBytesField dynMsg (PayloadField (Envelope route)) in
  let clientSig := getBytesField dynMsg (ClientSigField (Envelope route)) in
  if String.eqb (cryptoEngine g) "rust"
  then rustEngine g dir payloadBytes clientSig
  else goEngine g dir payloadBytes clientSig.

(** A proxy private key is configured, as the selected engine tests it
    (lines 374 and 391). *)
Definition keyConfigured (g : Globals) : Prop :=
  if String.eqb (cryptoEngine g) "rust"
  then proxyPrivateKeyPEM g ≠ []
  else is_Some (proxyPrivateKey g).

(** [sign(payload, proxy_private_key)] of the selected engine: RSA
    PKCS#1 v1.5 over SHA-256, through [RustSignPayload] or through
    [rsa.SignPKCS1v15]; [None] when the engine yields no signature. *)
Definition proxySignature (g : Globals) (payload : bytes) : option bytes :=
  if String.eqb (cryptoEngine g) "rust"
  then result (RustSignPayload payload (proxyPrivateKeyPEM g))
  else key ← proxyPrivateKey g; rsa_SignPKCS1v15 key (sha256_Sum256 payload).

(** [m'] equals [m] in every field except [field], which holds [sig].
    Messages are compared whole, so that the fields of every type and the
    unknown fields count: [field] of [m'] reads [sig], and putting a value
    back into [field] turns [m'] into [m] itself. *)
Definition signedCopyOf (m m' : Message) (field : string) (sig : bytes) : Prop :=
  TryGetFieldByName m' field = Some (VBytes sig) ∧
  ∃ old, TrySetFieldByName m' field old = Some m.


(** The steps of [inspect-verify-sign] that can fail on a frame. *)
Inductive Step :=
| StepUnmarshal | StepFieldRead | StepSign | StepFieldWrite | StepMarshal.

Definition stepFails (g : Globals) (method : string) (isReq : bool)
    (frame : bytes) (route : RouteConfig) (s : Step) : Prop :=
  match s with
  | StepUnmarshal =>
      ∃ msgDesc, resolveDescriptor g method isReq = Some msgDesc ∧
                 Unmarshal (NewMessage msgDesc) frame = None
  | StepFieldRead =>
      ∃ m name, decodeFrame g method isReq frame = Some m ∧
                name ≠ "" ∧
                name ∈ [PayloadField (Envelope route);
                        TypeURLField (Envelope route);
                        ClientSigField (Envelope route)] ∧
                TryGetFieldByName m name = None
  | StepSign =>
      ∃ m, decodeFrame g method isReq frame = Some m ∧ keyConfigured g ∧
           proxySignature g (getBytesField m (PayloadField (Envelope route))) = None
  | StepFieldWrite =>
      ∃ m, decodeFrame g method isReq frame = Some m ∧
           TrySetFieldByName m (ProxySigField (Envelope route))
             (VBytes (result (signingStage g isReq route m))) = None
  | StepMarshal =>
      ∃ m m', decodeFrame g method isReq frame = Some m ∧
              TrySetFieldByName m (ProxySigField (Envelope route))
                (VBytes (result (signingStage g isReq route m))) = Some m' ∧
              Marshal m' = None
  end.

(** Claim C2 as the specification words it: "any decode, field-read,
    field-write, sign, or re-encode failure in inspect-verify-sign results
    in the forwarded frame equalling the input frame byte-for-byte." *)
Definition forwardsOriginalOnEveryFailure (g : Globals) (method : string)
    (isReq : bool) (frame : bytes) (route : RouteConfig) : Prop :=
  Mode route = "inspect-verify-sign" →
  ∀ s, stepFails g method isReq frame route s →
       result (processMsg g method isReq frame route) = frame.


End Proxy.

(** The contract of the reflection library as reads by name show it:
    descriptors are kept, a written field reads back, other fields read as
    before, and what [Marshal] produces unmarshals to a message whose
    fields read the same.  (Fields in a [oneof] group, where a write
    clears the siblings, are outside this contract.) *)
Class DynamicLaws `{DynamicLib} : Prop := {
  NewMessage_descriptor d : GetMessageDescriptor (NewMessage d) = d;
  Unmarshal_descriptor m data m' :
    Unmarshal m data = Some m' → GetMessageDescriptor m' = GetMessageDescriptor m;
  TrySet_descriptor m name v m' :
    TrySetFieldByName m name v = Some m' →
    GetMessageDescriptor m' = GetMessageDescriptor m;
  TrySet_read_same m name b m' :
    TrySetFieldByName m name (VBytes b) = Some m' →
    TryGetFieldByName m' name = Some (VBytes b);
  TrySet_read_other m name v m' name' :
    TrySetFieldByName m name v = Some m' → name' ≠ name →
    TryGetFieldByName m' name' = TryGetFieldByName m name';
  Marshal_Unmarshal m data :
    Marshal m = Some data →
    ∃ m', Unmarshal (NewMessage (GetMessageDescriptor m)) data = Some m' ∧
          ∀ name, TryGetFieldByName m' name = TryGetFieldByName m name;
}.


(** ** A wire-level implementation of the reflection interface

    Enough of the protobuf binary format to run the processor on real
    frames: base-128 varints and length-delimited fields (wire type 2),
    which covers the [bytes], [string], map and nested-message fields of
    the envelopes.  A frame with any other wire type fails to unmarshal. *)

Module Wire.

Definition byte_of_N (n : N) : byte := default x00 (Byte.of_N n).

(** Base-128 varint, least significant group first; the high bit marks
    a continuation. *)
Fixpoint putVarint (fuel : nat) (n : N) : bytes :=
  match fuel with
  | O => [byte_of_N (n `mod` 128)]
  | S fuel' =>
      if (n <? 128)%N then [byte_of_N n]
      else byte_of_N (128 + n `mod` 128) :: putVarint fuel' (n `div` 128)
  end.

(** [N.log2 n] groups always suffice: see [decode_encodeVarint]. *)
Definition encodeVarint (n : N) : bytes := putVarint (N.to_nat (N.log2 n)) n.

Fixpoint decodeVarint (bs : bytes) : option (N * bytes) :=
  match bs with
  | [] => None
  | b :: rest =>
      let v := Byte.to_N b in
      if (v <? 128)%N then Some (v, rest)
      else
        '(hi, rest') ← decodeVarint rest;
        Some (v - 128 + 128 * hi, rest')%N
  end.

(** A field on the wire: its number and its length-delimited content. *)
Definition encodeField (f : positive * bytes) : bytes :=
  encodeVarint (N.pos f.1 * 8 + 2) ++
  encodeVarint (N.of_nat (length f.2)) ++ f.2.

Fixpoint encodeFields (fs : list (positive * bytes)) : bytes :=
  match fs with
  | [] => []
  | f :: fs' => encodeField f ++ encodeFields fs'
  end.

(** Every field takes at least one byte, so [length bs] rounds are
    enough to consume [bs]. *)
Fixpoint parseFields (fuel : nat) (bs : bytes)
  : option (list (positive * bytes)) :=
  match bs with
  | [] => Some []
  | _ :: _ =>
      match fuel with
      | O => None
      | S fuel' =>
          '(key, bs1) ← decodeVarint bs;
          if negb (key `mod` 8 =? 2)%N then None
          else
            match (key `div` 8)%N with
            | N0 => None                         (* field number 0 *)
            | Npos num =>
                '(len, bs2) ← decodeVarint bs1;
                let n := N.to_nat len in
                if (length bs2 <? n)%nat then None   (* truncated *)
                else
                  rest ← parseFields fuel' (drop n bs2);
                  Some ((num, take n bs2) :: rest)
            end
      end
  end.

Definition decodeFields (bs : bytes) : option (list (positive * bytes)) :=
  parseFields (length bs) bs.

(** *** Descriptors and dynamic messages *)

Inductive FieldType := TBytes | TString | TEmbedded.

Record FieldDescriptor := mkField {
  fd_name : string;
  fd_number : positive;
  fd_type : FieldType;
}.

(** A message descriptor; as in any descriptor protoc accepts, no two
    fields share a number. *)
Record MsgDesc := mkMsgDesc {
  md_name : string;
  md_fields : list FieldDescriptor;
  md_wf : Is_true (bool_decide (NoDup (fd_number <$> md_fields)));
}.

(** A message: its descriptor and the fields it holds, in wire order,
    whether the descriptor knows them or not. *)
Record Msg := mkMsg {
  m_desc : MsgDesc;
  m_fields : list (positive * bytes);
}.

Definition findField (d : MsgDesc) (name : string) : option FieldDescriptor :=
  List.find (λ fd, String.eqb (fd_name fd) name) (md_fields d).

(** The last occurrence of a field wins. *)
Fixpoint lastValue (num : positive) (fs : list (positive * bytes))
  : option bytes :=
  match fs with
  | [] => None
  | (k, v) :: fs' =>
      match lastValue num fs' with
      | Some v' => Some v'
      | None => if Pos.eqb k num then Some v else None
      end
  end.

Definition valueOf (ty : FieldType) (raw : bytes) : Value :=
  match ty with
  | TBytes => VBytes raw
  | TString => VString (string_of_list_byte raw)
  | TEmbedded => VOther
  end.

(** An unset field reads as the zero value of its type. *)
Definition tryGet (m : Msg) (name : string) : option Value :=
  fd ← findField (m_desc m) name;
  Some (valueOf (fd_type fd) (default [] (lastValue (fd_number fd) (m_fields m)))).

Definition without (num : positive) (fs : list (positive * bytes))
  : list (positive * bytes) :=
  List.filter (λ f, negb (Pos.eqb f.1 num)) fs.

(** Writing replaces the field; writing the zero value unsets it
    (proto3).  An unknown name or a value of the wrong type is an error. *)
Definition trySet (m : Msg) (name : string) (v : Value) : option Msg :=
  fd ← findField (m_desc m) name;
  raw ← match fd_type fd, v with
        | TBytes, VBytes b => Some b
        | TString, VString s => Some (list_byte_of_string s)
        | _, _ => None
        end;
  Some (mkMsg (m_desc m)
          (without (fd_number fd) (m_fields m) ++
           match raw with [] => [] | _ => [(fd_number fd, raw)] end)).

Definition unmarshal (m : Msg) (data : bytes) : option Msg :=
  fs ← decodeFields data;
  Some (mkMsg (m_desc m) fs).

Definition marshal (m : Msg) : option bytes := Some (encodeFields (m_fields m)).

(** The names of the known fields a message holds, for the log. *)
Definition render (m : Msg) : string :=
  "{" +:+
  String.concat ","
    (fd_name <$> List.filter
       (λ fd, bool_decide (is_Some (lastValue (fd_number fd) (m_fields m))))
       (md_fields (m_desc m)))
  +:+ "}".

#[export] Instance dynamic : DynamicLib := {|
  MessageDescriptor := MsgDesc;
  Message := Msg;
  GetFullyQualifiedName := md_name;
  NewMessage := λ d, mkMsg d [];
  GetMessageDescriptor := m_desc;
  Unmarshal := unmarshal;
  MarshalJSONIndent := render;
  TryGetFieldByName := tryGet;
  TrySetFieldByName := trySet;
  Marshal := marshal;
|}.

End Wire.

(** ** A small RSA behind the crypto interface

    Neither Go's [crypto] packages nor the Rust library are in the
    sources.  To run the processor, this stand-in fills the interface
    with textbook RSA at toy size: the modulus 3233 = 61 * 53 with
    e = 17 and d = 2753, over a two-byte digest.  It tells a signature
    that verifies from one that does not; no property below depends on
    more.  A key file holds the modulus and the exponent, two big-endian
    bytes each. *)

Module SmallRSA.

Fixpoint powmod (b : N) (e : positive) (n : N) : N :=
  match e with
  | xH => b `mod` n
  | xO e' => let r := powmod b e' n in (r * r) `mod` n
  | xI e' => let r := powmod b e' n in (r * r * b) `mod` n
  end%N.

Definition put16 (n : N) : bytes :=
  [Wire.byte_of_N ((n `div` 256) `mod` 256); Wire.byte_of_N (n `mod` 256)].

Definition get16 (bs : bytes) : option N :=
  match bs with
  | [hi; lo] => Some (Byte.to_N hi * 256 + Byte.to_N lo)%N
  | _ => None
  end.

Definition digest (payload : bytes) : bytes :=
  put16 (foldl (λ acc b, (acc * 31 + Byte.to_N b) `mod` 65536)%N 7%N payload).

(** A key: modulus and (nonzero) exponent. *)
Definition parseKey (pem : bytes) : option (N * positive) :=
  match pem with
  | [n1; n0; e1; e0] =>
      match (Byte.to_N e1 * 256 + Byte.to_N e0)%N with
      | Npos e => Some ((Byte.to_N n1 * 256 + Byte.to_N n0)%N, e)
      | N0 => None
      end
  | _ => None
  end.

Definition signDigest (key : N * positive) (hashed : bytes) : option bytes :=
  h ← get16 hashed;
  Some (put16 (powmod (h `mod` key.1) key.2 key.1)).

Definition verifyDigest (key : N * positive) (hashed sig : bytes) : bool :=
  match get16 hashed, get16 sig with
  | Some h, Some s => (powmod s key.2 key.1 =? h `mod` key.1)%N
  | _, _ => false
  end.

#[export] Instance crypto : CryptoLib := {|
  PrivateKey := N * positive;
  CertPool := N * positive;
  sha256_Sum256 := digest;
  rsa_SignPKCS1v15 := signDigest;
  verify_signature := λ payload sig pubKey,
    match parseKey pubKey with
    | Some key => verifyDigest key (digest payload) sig
    | None => false
    end;
  sign_payload := λ payload privKey,
    match parseKey privKey with
    | Some key =>
        match signDigest key (digest payload) with
        | Some sig => (true, Some sig)
        | None => (false, None)
        end
    | None => (false, None)
    end;
|}.

Definition privateKey : N * positive := (3233%N, 2753%positive).
Definition publicKey : N * positive := (3233%N, 17%positive).
Definition privateKeyPEM : bytes := put16 3233 ++ put16 2753.
Definition publicKeyPEM : bytes := put16 3233 ++ put16 17.

End SmallRSA.

(** ** The example services

    The messages of the repository's [echo] package as the backend uses
    them: [EchoRequest]/[EchoResponse] with [string message = 1], and
    [SecureEnvelope] with [bytes payload = 1], [string type_url = 2],
    [bytes client_signature = 3], [bytes proxy_signature = 4] and
    [map<string,string> metadata = 5]. *)

Module Echo.
Import Wire SmallRSA.

Definition EchoRequest : MsgDesc :=
  mkMsgDesc "echo.EchoRequest" [mkField "message" 1 TString] I.

Definition EchoResponse : MsgDesc :=
  mkMsgDesc "echo.EchoResponse" [mkField "message" 1 TString] I.

Definition SecureEnvelope : MsgDesc :=
  mkMsgDesc "echo.SecureEnvelope"
    [ mkField "payload" 1 TBytes;
      mkField "type_url" 2 TString;
      mkField "client_signature" 3 TBytes;
      mkField "proxy_signature" 4 TBytes;
      mkField "metadata" 5 TEmbedded ] I.

Definition registry : gmap string MethodDescriptor :=
  list_to_map
    [ ("/echo.EchoService/UnaryEcho", mkMethod _ EchoRequest EchoResponse);
      ("/echo.SecureService/SecureEcho", mkMethod _ SecureEnvelope SecureEnvelope);
      ("/echo.SecureService/InspectOuter", mkMethod _ SecureEnvelope SecureEnvelope) ].

Definition secureEnvelopeFields : EnvelopeConfig :=
  mkEnvelope "payload" "type_url" "client_signature" "proxy_signature" "metadata".

(** The routes of the README's [config.yaml], with an inspect-outer rule
    ahead of the wildcard. *)
Definition passThruRoute : RouteConfig :=
  mkRoute "/echo.EchoService/*" "pass-thru" emptyEnvelope.

Definition inspectOuterRoute : RouteConfig :=
  mkRoute "/echo.SecureService/InspectOuter" "inspect-outer" secureEnvelopeFields.

Definition secureRoute : RouteConfig :=
  mkRoute "/echo.SecureService/*" "inspect-verify-sign" secureEnvelopeFields.

Definition routes : list RouteConfig :=
  [passThruRoute; inspectOuterRoute; secureRoute].

(** The proxy started with [-crypto=go] and with [-crypto=rust], trust
    store and private key configured. *)
Definition goProxy : Globals :=
  mkGlobals routes registry (Some publicKey) (Some privateKey)
    publicKeyPEM privateKeyPEM "go".

Definition rustProxy : Globals :=
  mkGlobals routes registry (Some publicKey) (Some privateKey)
    publicKeyPEM privateKeyPEM "rust".

Definition abc : bytes := list_byte_of_string "abc".

(** [SecureEnvelope{payload: "abc"}] on the wire: [0a 03 61 62 63]. *)
Definition envelopeFrame : bytes := encodeFields [(1%positive, abc)].

(** The client's signature of ["abc"], made with the key whose public
    half is the proxy's trust anchor. *)
Definition clientSig : bytes := sliceOf (signDigest privateKey (digest abc)).

(** [SecureEnvelope{payload: "abc", client_signature: ...}], correctly
    signed and with a wrong signature. *)
Definition signedFrame : bytes :=
  encodeFields [(1%positive, abc); (3%positive, clientSig)].

Definition forgedFrame : bytes :=
  encodeFields [(1%positive, abc); (3%positive, [x00; x01])].

(** [EchoRequest{message: "hi"}]. *)
Definition echoFrame : bytes :=
  encodeFields [(1%positive, list_byte_of_string "hi")].

(** [SecureEnvelope] carrying an encoded [EchoRequest{message: "hi"}] and
    its type URL. *)
Definition inspectFrame : bytes :=
  encodeFields
    [ (1%positive, echoFrame);
      (2%positive, list_byte_of_string "type.googleapis.com/echo.EchoRequest") ].

(** A frame cut short: field 1 announces five bytes and carries one. *)
Definition truncatedFrame : bytes := [x0a; x05; x61].

(** [SecureEnvelope{payload: "abc", proxy_signature: "*"}]: a frame that
    arrives with the proxy signature slot already filled. *)
Definition presignedFrame : bytes :=
  encodeFields [(1%positive, abc); (4%positive, [x2a])].


Definition misnamedPayloadRoute : RouteConfig :=
  mkRoute "/echo.SecureService/*" "inspect-verify-sign"
    (mkEnvelope "body" "type_url" "client_signature" "proxy_signature" "metadata").

Definition relabelledRoute : RouteConfig :=
  mkRoute "/echo.SecureService/*" "inspect-verify-sign"
    (mkEnvelope "payload" "type_url" "client_signature" "proxy_signature" "labels").

(** The proxy with [-crypto=rust] and a key file that holds no key. *)
Definition badKeyProxy : Globals :=
  mkGlobals routes registry (Some publicKey) (Some privateKey)
    publicKeyPEM [x01] "rust".

(** A wildcard rule for the service [foo.Bar]. *)
Definition barRoute : RouteConfig :=
  mkRoute "/foo.Bar/*" "inspect-verify-sign" secureEnvelopeFields.

End Echo.

(** ** The rest of the stream director

    What [transparentHandler] does around the per-frame work: the pump
    loops to their end, the set-up steps and the final [select]; and the
    expression that takes the type suffix off a type URL. *)

(** [strings.Split(s, sep)] for a one-character separator: the pieces of
    [s] between the separators, in order; one more piece than there are
    separators. *)
Fixpoint Split (sep : Ascii.ascii) (s : string) : list string :=
  match s with
  | EmptyString => [""]
  | String c s' =>
      if Ascii.eqb c sep then "" :: Split sep s'
      else match Split sep s' with
           | piece :: pieces => String c piece :: pieces
           | [] => [String c ""]
           end
  end.

(** What a [RecvMsg] or [SendMsg] fails with: [io.EOF] or another error. *)
Inductive StreamErr :=
| EOF
| Failed (status : string).

(** Kinds of events: a signing call of the native engine, a signing
    call of either engine, any call into a crypto backend, and the release
    of a signature buffer. *)
Definition is_native_sign (e : Event) : bool :=
  match e with Call (Go_SignPKCS1v15 _) => true | _ => false end.

Definition is_sign (e : Event) : bool :=
  match e with
  | Call (Go_SignPKCS1v15 _) | Call (FFI_sign_payload _ _) => true
  | _ => false
  end.

Definition is_crypto (e : Event) : bool := is_ffi e || is_native_sign e.

Definition is_free (e : Event) : bool :=
  match e with Call FFI_free_signature => true | _ => false end.

(** The steps of the handler that act on the connection. *)
Inductive HandlerEvent :=
| Dial                               (* grpc.Dial, main.go:232 *)
| NewClientStream (method : string)  (* grpc.NewClientStream, main.go:241 *)
| SpawnPumps                         (* the two go statements *)
| CloseSend                          (* clientStream.CloseSend(), main.go:293 *)
| ClientCancel                       (* deferred clientCancel() *)
| BackendConnClose.                  (* deferred backendConn.Close() *)

(** What the handler meets on one call: whether the stream carries a
    method name, whether the dial and the stream creation fail, which
    case of the [select] fires, and what each pump writes to its error
    channel. *)
Record HandlerEnv := mkHandlerEnv {
  methodFromServerStream : option string;
  dialError : option string;
  newClientStreamError : option string;
  s2cFirst : bool;
  s2cReport : StreamErr;
  c2sReport : StreamErr;
}.

Section Director.
Context `{DynamicLib} `{CryptoLib}.

(** One pump from its first [RecvMsg] to the error it writes to its
    channel ([main.go], lines 250-265 and 268-283).  [inbox] holds the
    frames [RecvMsg] delivers before it fails with [recvErr]; [sendErr k]
    is the outcome of the [k]-th [SendMsg] of the pump, [n] counting the
    sends made so far.  The result is the frames sent and the error
    reported. *)
Fixpoint pumpLoop (g : Globals) (fullMethodName : string)
    (route : RouteConfig) (isReq : bool) (inbox : list bytes)
    (recvErr : StreamErr) (sendErr : nat → option StreamErr) (n : nat)
  : M (list bytes * StreamErr) :=
  match inbox with
  | [] => mret ([], recvErr)
  | data :: rest =>
      out ← pumpFrame g fullMethodName route isReq data;
      match out with
      | inl err => mret ([], Failed err)
      | inr frame =>
          match sendErr n with
          | Some err => mret ([], err)
          | None =>
              '(sent, err) ←
                pumpLoop g fullMethodName route isReq rest recvErr sendErr (S n);
              mret (frame :: sent, err)
          end
      end
  end.

(** The frame a pump sends for the frame [data] it received. *)
Definition forwardOf (g : Globals) (fullMethodName : string)
    (route : RouteConfig) (isReq : bool) (data : bytes) : bytes :=
  if String.eqb (Mode route) "pass-thru" then data
  else result (processMsg g fullMethodName isReq data route).

(** The [select] of lines 285-301: the error returned ([None] is nil)
    and whether [CloseSend] was called. *)
Definition awaitPumps (env : HandlerEnv) : option StreamErr * list HandlerEvent :=
  if s2cFirst env then
    match s2cReport env with
    | EOF => (None, [])
    | err => (Some err, [])
    end
  else
    match c2sReport env with
    | EOF =>
        match s2cReport env with
        | EOF => (None, [CloseSend])
        | err => (Some err, [CloseSend])
        end
    | err => (Some err, [])
    end.

(** [transparentHandler] ([main.go], lines 220-302) on the connection:
    the error it returns and the steps it took, deferred calls included
    (they run last, in reverse order). *)
Definition transparentHandler (env : HandlerEnv)
  : option StreamErr * list HandlerEvent :=
  match methodFromServerStream env with
  | None => (Some (Failed "lowLevelServerStream not exists in context"), [])
  | Some fullMethodName =>
      match dialError env with
      | Some err => (Some (Failed err), [Dial])
      | None =>
          match newClientStreamError env with
          | Some err =>
              (Some (Failed err),
               [Dial; NewClientStream fullMethodName; ClientCancel; BackendConnClose])
          | None =>
              let '(status, steps) := awaitPumps env in
              (status,
               [Dial; NewClientStream fullMethodName; SpawnPumps] ++ steps ++
               [ClientCancel; BackendConnClose])
          end
      end
  end.

End Director.

(** ** Start-up: the descriptor loaders and the crypto material *)

(** [desc.ServiceDescriptor]: its fully-qualified name and its methods,
    each with its [GetName()]; [desc.FileDescriptor]: its services. *)
Record ServiceDescriptor `{DynamicLib} := mkService {
  svc_GetFullyQualifiedName : string;
  svc_GetMethods : list (string * MethodDescriptor);
}.

Record FileDescriptor `{DynamicLib} := mkFile {
  GetServices : list ServiceDescriptor;
}.

(** The [Config] of [main.go], lines 36-75. *)
Record Config := mkConfig {
  Server_ListenAddress : string;
  Backend_Address : string;
  Schema_Method : string;
  Schema_PBPath : string;
  Routes : list RouteConfig;
  CMS_ClientTrustStore : string;
  CMS_ProxyPrivateKey : string;
  CMS_ProxyCertificate : string;
}.

(** What [x509.ParsePKCS8PrivateKey] returns in its [any]. *)
Inductive ParsedKey `{CryptoLib} :=
| RSAKey (key : PrivateKey)
| OtherKey.

(** The file system and the libraries [main] and the loaders call.
    Errors are [None]. *)
Class StartupLib `{DynamicLib} `{CryptoLib} := {
  os_ReadFile : string → option bytes;
  yaml_Unmarshal : bytes → option Config;
  FileDescriptorSet : Type;
  proto_Unmarshal : bytes → option FileDescriptorSet;
  desc_CreateFileDescriptorsFromSet :
    FileDescriptorSet → option (list FileDescriptor);
  grpc_Dial : string → option string;                 (* the error, if any *)
  grpcreflect_ListServices : string → option (list string);
  grpcreflect_ResolveService : string → string → option ServiceDescriptor;
  x509_AppendCertsFromPEM : bytes → option CertPool;  (* [None]: nothing added *)
  pem_Decode : bytes → option bytes;                  (* the first block's bytes *)
  Certificate : Type;
  x509_ParseCertificate : bytes → option Certificate;
  spkiPEM : Certificate → bytes;       (* MarshalPKIXPublicKey, EncodeToMemory *)
  x509_ParsePKCS8PrivateKey : bytes → option ParsedKey;
  x509_ParsePKCS1PrivateKey : bytes → option PrivateKey;
}.

(** A [log.Fatalf]: the process exits with the message. *)
Definition Fatal (A : Type) : Type := string + A.

Global Instance Fatal_ret : MRet Fatal := λ A a, inr a.
Global Instance Fatal_bind : MBind Fatal := λ A B f m,
  match m with
  | inl msg => inl msg
  | inr a => f a
  end.

Definition orFatal {A} (msg : string) (o : option A) : Fatal A :=
  match o with
  | Some a => inr a
  | None => inl msg
  end.

(** [fmt.Sprintf("/%s/%s", service, method)]. *)
Definition fullMethod (service method : string) : string :=
  "/" +:+ service +:+ "/" +:+ method.

Section Startup.
Context `{StartupLib}.

(** The innermost loop of both loaders: [res[fullMethod] = md] for each
    method of a service. *)
Definition indexMethods (svcName : string)
    (methods : list (string * MethodDescriptor))
    (res : gmap string MethodDescriptor) : gmap string MethodDescriptor :=
  foldl (λ res m, <[fullMethod svcName m.1 := m.2]> res) res methods.

(** The loops of [loadFromPB] ([main.go], lines 485-493) over the file
    descriptors, in the order the map is ranged over. *)
Definition indexFiles (fdMap : list FileDescriptor)
  : gmap string MethodDescriptor :=
  foldl (λ res fd,
           foldl (λ res svc,
                    indexMethods (svc_GetFullyQualifiedName svc)
                      (svc_GetMethods svc) res)
                 res (GetServices fd))
        ∅ fdMap.

(** [loadFromPB], lines 468-496; [filepath.Abs] is left to the file
    system. *)
Definition loadFromPB (path : string) : Fatal (gmap string MethodDescriptor) :=
  b ← orFatal "failed to read pb" (os_ReadFile path);
  fds ← orFatal "failed unmarshal fds" (proto_Unmarshal b);
  fdMap ← orFatal "failed to parse fds" (desc_CreateFileDescriptorsFromSet fds);
  mret (indexFiles fdMap).

(** The loop of [loadFromReflection] ([main.go], lines 513-527): the
    reflection service is skipped, and so is a service that does not
    resolve; the keys are built from the listed name. *)
Definition indexReflected (addr : string) (svcs : list string)
  : gmap string MethodDescriptor :=
  foldl (λ res svcName,
           if String.eqb svcName "grpc.reflection.v1alpha.ServerReflection"
           then res
           else match grpcreflect_ResolveService addr svcName with
                | None => res
                | Some sd => indexMethods svcName (svc_GetMethods sd) res
                end)
        ∅ svcs.

(** [loadFromReflection], lines 498-530. *)
Definition loadFromReflection (addr : string)
  : Fatal (gmap string MethodDescriptor) :=
  match grpc_Dial addr with
  | Some err => inl "reflect dial error"
  | None =>
      svcs ← orFatal "list services error" (grpcreflect_ListServices addr);
      mret (indexReflected addr svcs)
  end.

(** [main], lines 141-160: the trust pool and the cached public key. *)
Definition loadTrustStore (path : string) : Fatal (option CertPool * bytes) :=
  if String.eqb path "" then mret (None, [])
  else
    caBytes ← orFatal "failed to read trust store" (os_ReadFile path);
    pool ← orFatal "failed to append certs" (x509_AppendCertsFromPEM caBytes);
    mret (Some pool,
          match pem_Decode caBytes with
          | Some block =>
              match x509_ParseCertificate block with
              | Some cert => spkiPEM cert
              | None => []
              end
          | None => []
          end).

(** [main], lines 161-184: the private key, PKCS#8 first, then PKCS#1. *)
Definition loadPrivateKey (path : string) : Fatal (option PrivateKey * bytes) :=
  if String.eqb path "" then mret (None, [])
  else
    keyBytes ← orFatal "failed to read proxy private key" (os_ReadFile path);
    block ← orFatal "failed to parse PEM block containing the key"
              (pem_Decode keyBytes);
    priv ← match x509_ParsePKCS8PrivateKey block with
           | Some priv => mret priv
           | None =>
               orFatal "failed to parse private key"
                 (RSAKey <$> x509_ParsePKCS1PrivateKey block)
           end;
    match priv with
    | RSAKey key => mret (Some key, keyBytes)
    | OtherKey => inl "proxy private key is not RSA"
    end.

(** [main], lines 116-184: from the flags to the package-level variables
    the handler reads; the server is created and started after that. *)
Definition main_startup (configPath engineFlag : string) : Fatal Globals :=
  b ← orFatal "failed to read config" (os_ReadFile configPath);
  appConfig ← orFatal "failed to parse yaml" (yaml_Unmarshal b);
  mds ← (if String.eqb (Schema_Method appConfig) "pb"
         then loadFromPB (Schema_PBPath appConfig)
         else if String.eqb (Schema_Method appConfig) "reflect"
         then loadFromReflection (Backend_Address appConfig)
         else inl "unknown method");
  trust ← loadTrustStore (CMS_ClientTrustStore appConfig);
  key ← loadPrivateKey (CMS_ProxyPrivateKey appConfig);
  mret (mkGlobals (Routes appConfig) mds trust.1 key.1 trust.2 key.2 engineFlag).

End Startup.

(** ** The example deployment

    The services of [Module Echo] as the loaders see them, a file system
    holding the four files [main] reads, and parsers for the toy key
    format of [Module SmallRSA]. *)

Module Boot.
Import Wire SmallRSA Echo.

Definition echoService : ServiceDescriptor :=
  mkService _ "echo.EchoService"
    [("UnaryEcho", mkMethod _ EchoRequest EchoResponse)].

Definition secureService : ServiceDescriptor :=
  mkService _ "echo.SecureService"
    [ ("SecureEcho", mkMethod _ SecureEnvelope SecureEnvelope);
      ("InspectOuter", mkMethod _ SecureEnvelope SecureEnvelope) ].

Definition echoFile : FileDescriptor := mkFile _ [echoService; secureService].

Definition config : Config :=
  mkConfig "0.0.0.0:8080" "localhost:9090" "pb" "api/echo/echo.pb" routes
    "certs/ca.pem" "certs/proxy.key" "".

Definition readFile (path : string) : option bytes :=
  if String.eqb path "config.yaml" then Some (list_byte_of_string "schema: pb")
  else if String.eqb path "api/echo/echo.pb" then Some [x0a]
  else if String.eqb path "certs/ca.pem" then Some publicKeyPEM
  else if String.eqb path "certs/proxy.key" then Some privateKeyPEM
  else None.

Definition resolveService (addr svcName : string) : option ServiceDescriptor :=
  if String.eqb svcName "echo.EchoService" then Some echoService
  else if String.eqb svcName "echo.SecureService" then Some secureService
  else None.

#[export] Instance startup : StartupLib := {|
  os_ReadFile := readFile;
  yaml_Unmarshal := λ _, Some config;
  FileDescriptorSet := unit;
  proto_Unmarshal := λ _, Some tt;
  desc_CreateFileDescriptorsFromSet := λ _, Some [echoFile];
  grpc_Dial := λ _, None;
  grpcreflect_ListServices := λ _,
    Some [ "grpc.reflection.v1alpha.ServerReflection";
           "echo.EchoService"; "echo.SecureService"; "echo.Retired" ];
  grpcreflect_ResolveService := resolveService;
  x509_AppendCertsFromPEM := parseKey;
  pem_Decode := λ b, match b with [] => None | _ => Some b end;
  Certificate := N * positive;
  x509_ParseCertificate := parseKey;
  spkiPEM := λ cert, put16 cert.1 ++ put16 (Npos cert.2);
  x509_ParsePKCS8PrivateKey := λ block, RSAKey <$> parseKey block;
  x509_ParsePKCS1PrivateKey := parseKey;
|}.

(** What [main] leaves in the package-level variables on this file
    system, for either engine flag. *)
Definition booted (engineFlag : string) : Globals :=
  mkGlobals routes (indexFiles [echoFile]) (Some publicKey) (Some privateKey)
    SmallRSA.publicKeyPEM privateKeyPEM engineFlag.

(** The proxy with [-crypto=rust] and neither trust store nor key. *)
Definition keylessProxy : Globals :=
  mkGlobals routes registry None None [] [] "rust".

(** Rules that differ from [secureRoute]: one with a misspelled mode,
    one that agrees with it on mode, payload field and signature field
    only, and a catch-all. *)
Definition misspelledRoute : RouteConfig :=
  mkRoute "/echo.SecureService/*" "inspect-outre" secureEnvelopeFields.

Definition bareRoute : RouteConfig :=
  mkRoute "/echo.SecureService/SecureEcho" "inspect-verify-sign"
    (mkEnvelope "payload" "" "" "proxy_signature" "").

Definition catchAllRoute : RouteConfig :=
  mkRoute "/*" "inspect-outer" emptyEnvelope.

(** A transport on which every send succeeds, and one on which the send
    numbered [k] fails. *)
Definition allSent : nat → option StreamErr := λ _, None.

Definition sendFailsAt (k : nat) (err : StreamErr) : nat → option StreamErr :=
  λ n, if (n =? k)%nat then Some err else None.

End Boot.

(** * Properties *)

(** ** Go strings and the route matcher *)

Section RouteFacts.

Lemma substring_0_0 s : String.substring 0 0 s = "".
Proof. by destruct s. Qed.

Lemma substring_whole s : String.substring 0 (String.length s) s = s.
Proof. induction s as [|c s IH]; simpl; [done|by rewrite IH]. Qed.

Lemma substring_prefix p rest :
  String.substring 0 (String.length p) (p +:+ rest) = p.
Proof.
  induction p as [|c p IH]; simpl; [apply substring_0_0|by rewrite IH].
Qed.

Lemma substring_suffix pre suf :
  String.substring (String.length pre) (String.length suf) (pre +:+ suf) = suf.
Proof. induction pre as [|c pre IH]; simpl; [apply substring_whole|done]. Qed.

Lemma length_app_string s1 s2 :
  String.length (s1 +:+ s2) = (String.length s1 + String.length s2)%nat.
Proof. induction s1 as [|c s1 IH]; simpl; [done|by rewrite IH]. Qed.

Lemma substring_split k s :
  (k ≤ String.length s)%nat →
  s = String.substring 0 k s +:+ String.substring k (String.length s - k) s.
Proof.
  revert s. induction k as [|k IH]; intros s Hk.
  - rewrite substring_0_0, Nat.sub_0_r, substring_whole. done.
  - destruct s as [|c s]; simpl in *; [lia|].
    change (String c ?a +:+ ?b) with (String c (a +:+ b)).
    f_equal. apply IH. lia.
Qed.

Lemma HasPrefix_spec s p :
  HasPrefix s p = true ↔ ∃ rest, s = p +:+ rest.
Proof.
  unfold HasPrefix. split.
  - intros [Hlen Heq]%andb_true_iff.
    apply Nat.leb_le in Hlen. apply String.eqb_eq in Heq.
    exists (String.substring (String.length p) (String.length s - String.length p) s).
    rewrite <- Heq at 1. by apply substring_split.
  - intros [rest ->]. apply andb_true_iff. split.
    + apply Nat.leb_le. rewrite length_app_string. lia.
    + apply String.eqb_eq, substring_prefix.
Qed.

Lemma HasSuffix_spec s suf :
  HasSuffix s suf = true ↔ ∃ pre, s = pre +:+ suf.
Proof.
  unfold HasSuffix. split.
  - intros [Hlen Heq]%andb_true_iff.
    apply Nat.leb_le in Hlen. apply String.eqb_eq in Heq.
    set (k := (String.length s - String.length suf)%nat) in *.
    assert (String.length suf = (String.length s - k)%nat) as Hl by lia.
    pose proof (substring_split k s ltac:(lia)) as Hs.
    rewrite <- Hl, Heq in Hs. by exists (String.substring 0 k s).
  - intros [pre ->]. apply andb_true_iff. split.
    + apply Nat.leb_le. rewrite length_app_string. lia.
    + apply String.eqb_eq. rewrite length_app_string.
      replace (String.length pre + String.length suf - String.length suf)%nat
        with (String.length pre) by lia.
      apply substring_suffix.
Qed.

Lemma TrimSuffix_app pre suf : TrimSuffix (pre +:+ suf) suf = pre.
Proof.
  unfold TrimSuffix.
  replace (HasSuffix (pre +:+ suf) suf) with true
    by (symmetry; apply HasSuffix_spec; eauto).
  rewrite length_app_string.
  replace (String.length pre + String.length suf - String.length suf)%nat
    with (String.length pre) by lia.
  apply substring_prefix.
Qed.

(** A rule [p/*] accepts exactly the method ids that start with [p]. *)
Lemma routeMatches_wildcard p methodName :
  routeMatches (p +:+ "/*") methodName = true ↔ ∃ rest, methodName = p +:+ rest.
Proof.
  unfold routeMatches.
  replace (HasSuffix (p +:+ "/*") "/*") with true
    by (symmetry; apply HasSuffix_spec; eauto).
  rewrite TrimSuffix_app. apply HasPrefix_spec.
Qed.

(** Any other rule accepts its own text only. *)
Lemma routeMatches_exact matchPattern methodName :
  HasSuffix matchPattern "/*" = false →
  routeMatches matchPattern methodName = true ↔ matchPattern = methodName.
Proof. unfold routeMatches. intros ->. apply String.eqb_eq. Qed.

(** The first rule that accepts the method id wins; without one, the
    synthetic pass-through rule with an empty envelope is returned. *)
Lemma matchRoute_first_match routes methodName :
  matchRoute routes methodName =
  default defaultRoute
    (List.find (λ route, routeMatches (Match route) methodName) routes).
Proof.
  induction routes as [|route routes IH]; simpl; [done|].
  by destruct (routeMatches _ _).
Qed.

Lemma matchRoute_no_match routes methodName :
  Forall (λ route, routeMatches (Match route) methodName = false) routes →
  matchRoute routes methodName = mkRoute "" "pass-thru" (mkEnvelope "" "" "" "" "").
Proof.
  induction 1 as [|route routes Hr _ IH]; simpl; [done|]. by rewrite Hr.
Qed.

End RouteFacts.

(** ** The envelope processor and the pumps *)

Section ProxyFacts.
Context `{DynamicLib} `{CryptoLib}.

Lemma result_bind {A B} (m : M A) (f : A → M B) :
  result (m ≫= f) = result (f (result m)).
Proof. destruct m as [a t]. unfold mbind, M_bind, result. simpl. by destruct (f a). Qed.

Lemma trace_bind {A B} (m : M A) (f : A → M B) :
  trace (m ≫= f) = trace m ++ trace (f (result m)).
Proof. destruct m as [a t]. unfold mbind, M_bind, result, trace. simpl. by destruct (f a). Qed.

Lemma result_ret {A} (a : A) : result (mret a : M A) = a.
Proof. done. Qed.

Lemma trace_ret {A} (a : A) : trace (mret a : M A) = [].
Proof. done. Qed.

Lemma processMsg_result g method isReq payload route :
  result (processMsg g method isReq payload route) =
  match decodeFrame g method isReq payload with
  | None => payload
  | Some m =>
      if String.eqb (Mode route) "inspect-verify-sign" then
        match TrySetFieldByName m (ProxySigField (Envelope route))
                (VBytes (result (signingStage g isReq route m))) with
        | None => payload
        | Some m' => default payload (Marshal m')
        end
      else payload
  end.
Proof.
  unfold processMsg, decodeFrame, resolveDescriptor.
  destruct (methodDescriptors g !! method) as [md|]; simpl; [|done].
  rewrite result_bind.
  destruct (Unmarshal _ payload) as [m|]; [|done].
  rewrite !result_bind.
  destruct (String.eqb (Mode route) "inspect-verify-sign"); [|done].
  rewrite result_bind. fold (signingStage g isReq route m).
  destruct (TrySetFieldByName _ _ _) as [m'|]; [|done].
  rewrite result_bind. by destruct (Marshal m').
Qed.

Lemma trace_logPrintf l : trace (logPrintf l) = [Log l].
Proof. done. Qed.

Lemma trace_call c : trace (call c) = [Call c].
Proof. done. Qed.

Ltac run := rewrite ?trace_bind, ?result_bind, ?trace_logPrintf, ?trace_call,
                    ?trace_ret, ?result_ret.

Lemma quiet_nil P : quiet P [].
Proof. constructor. Qed.

Lemma quiet_app P t1 t2 : quiet P t1 → quiet P t2 → quiet P (t1 ++ t2).
Proof. intros. by apply Forall_app. Qed.

Lemma inspectInner_no_encode g dir payloadBytes typeURL :
  quiet is_encode (trace (inspectInner g dir payloadBytes typeURL)).
Proof.
  unfold inspectInner.
  destruct (_ && _); [|apply quiet_nil].
  destruct (findDescByType _ _); [|apply quiet_nil].
  run. apply quiet_app; [by repeat constructor|].
  destruct (Unmarshal _ _); [by repeat constructor|apply quiet_nil].
Qed.

Lemma processMsg_no_encode g method isReq payload route :
  Mode route ≠ "inspect-verify-sign" →
  quiet is_encode (trace (processMsg g method isReq payload route)).
Proof.
  intros Hmode. unfold processMsg.
  destruct (methodDescriptors g !! method) as [md|]; run;
    [|by repeat constructor].
  apply quiet_app; [by repeat constructor|].
  destruct (Unmarshal _ payload) as [m|]; run; [|by repeat constructor].
  apply quiet_app; [by repeat constructor|].
  apply quiet_app; [apply inspectInner_no_encode|].
  destruct (String.eqb_spec (Mode route) "inspect-verify-sign"); [done|].
  apply quiet_nil.
Qed.

(** Claim C6.  On a route whose mode is [inspect-outer] the envelope
    processor returns the bytes it was given, in either direction, and
    never calls [Marshal] on the dynamic message: not even when the frame
    decodes and the inner payload is inspected. *)
Theorem inspect_outer_returns_original g method isReq payload route :
  Mode route = "inspect-outer" →
  result (processMsg g method isReq payload route) = payload ∧
  quiet is_encode (trace (processMsg g method isReq payload route)).
Proof.
  intros Hmode. split.
  - rewrite processMsg_result, Hmode. by destruct (decodeFrame _ _ _ _).
  - apply processMsg_no_encode. by rewrite Hmode.
Qed.

Lemma pumpFrame_pass_thru g method route isReq b :
  Mode route = "pass-thru" →
  pumpFrame g method route isReq b = (inr b, []).
Proof. intros Hmode. unfold pumpFrame. simpl. by rewrite Hmode. Qed.

(** Claim C5.  When the route matched for the stream has mode
    [pass-thru], either pump forwards every frame [b] byte for byte, and
    no [Unmarshal] of the frame is attempted. *)
Theorem pass_thru_forwards_verbatim g method isReq b :
  Mode (matchRoute (appConfig_Routes g) method) = "pass-thru" →
  let forwarded := pumpFrame g method (matchRoute (appConfig_Routes g) method) isReq b in
  result forwarded = inr b ∧ quiet is_decode (trace forwarded).
Proof.
  intros Hmode. cbv zeta. rewrite pumpFrame_pass_thru by done.
  split; [done|apply quiet_nil].
Qed.

Lemma pump_pass_thru g method isReq inbox :
  Mode (matchRoute (appConfig_Routes g) method) = "pass-thru" →
  pump g method isReq inbox = (inr <$> inbox, []).
Proof.
  intros Hmode. induction inbox as [|b inbox IH]; [done|].
  cbn [pump]. rewrite pumpFrame_pass_thru, IH by done. done.
Qed.

Lemma pumpFrame_result g method route isReq b :
  result (pumpFrame g method route isReq b) =
  inr (if String.eqb (Mode route) "pass-thru" then b
       else result (processMsg g method isReq b route)).
Proof.
  unfold pumpFrame. simpl. run.
  by destruct (String.eqb (Mode route) "pass-thru").
Qed.

(** Claim C8.  For a method id without an entry in the descriptor
    registry the envelope processor returns its input bytes unchanged, in
    both directions and whatever the mode of the route; the pump forwards
    them. *)
Theorem no_descriptor_returns_input g method isReq payload route :
  methodDescriptors g !! method = None →
  result (processMsg g method isReq payload route) = payload ∧
  result (pumpFrame g method route isReq payload) = inr payload.
Proof.
  intros Hnone.
  assert (result (processMsg g method isReq payload route) = payload) as Hp.
  { rewrite processMsg_result. unfold decodeFrame, resolveDescriptor.
    by rewrite Hnone. }
  split; [done|]. rewrite pumpFrame_result, Hp. by destruct (String.eqb _ _).
Qed.

Lemma RustVerifySignature_zero_length payload sig pubKeyPEM :
  length payload = 0 ∨ length sig = 0 ∨ length pubKeyPEM = 0 →
  RustVerifySignature payload sig pubKeyPEM = (false, []).
Proof.
  intros Hz. unfold RustVerifySignature.
  destruct Hz as [-> | [-> | ->]]; simpl; rewrite ?orb_true_r; done.
Qed.

Lemma RustSignPayload_zero_length payload privKeyPEM :
  length payload = 0 ∨ length privKeyPEM = 0 →
  RustSignPayload payload privKeyPEM = (None, []).
Proof.
  intros Hz. unfold RustSignPayload.
  destruct Hz as [-> | ->]; simpl; rewrite ?orb_true_r; done.
Qed.

(** Claim C9.  [RustVerifySignature] returns [false] as soon as the
    payload, the signature or the public-key PEM has length zero, and
    [RustSignPayload] returns nil as soon as the payload or the
    private-key PEM has; in each case no function of the foreign library
    is called. *)
Theorem foreign_wrappers_short_circuit payload sig pubKeyPEM privKeyPEM :
  (length payload = 0 ∨ length sig = 0 ∨ length pubKeyPEM = 0 →
   result (RustVerifySignature payload sig pubKeyPEM) = false ∧
   quiet is_ffi (trace (RustVerifySignature payload sig pubKeyPEM))) ∧
  (length payload = 0 ∨ length privKeyPEM = 0 →
   result (RustSignPayload payload privKeyPEM) = None ∧
   quiet is_ffi (trace (RustSignPayload payload privKeyPEM))).
Proof.
  split; intros Hz.
  - rewrite RustVerifySignature_zero_length by done. split; [done|apply quiet_nil].
  - rewrite RustSignPayload_zero_length by done. split; [done|apply quiet_nil].
Qed.

(** With non-empty arguments the wrappers are transparent: they return
    what the foreign functions return. *)
Lemma RustVerifySignature_calls payload sig pubKeyPEM :
  payload ≠ [] → sig ≠ [] → pubKeyPEM ≠ [] →
  RustVerifySignature payload sig pubKeyPEM =
  (verify_signature payload sig pubKeyPEM,
   [Call (FFI_verify_signature payload sig pubKeyPEM)]).
Proof.
  intros. unfold RustVerifySignature.
  by destruct payload, sig, pubKeyPEM.
Qed.

Lemma RustSignPayload_calls payload privKeyPEM sig :
  payload ≠ [] → privKeyPEM ≠ [] →
  sign_payload payload privKeyPEM = (true, Some sig) →
  RustSignPayload payload privKeyPEM =
  (Some sig, [Call (FFI_sign_payload payload privKeyPEM); Call FFI_free_signature]).
Proof.
  intros ?? Hs. unfold RustSignPayload. rewrite Hs.
  by destruct payload, privKeyPEM.
Qed.

(** Claim C10.  Two route rules that differ only in [metadata_field]
    make the envelope processor return the same bytes (and log the same
    lines) on every frame: the field is never read. *)
Theorem metadata_field_is_never_read g method isReq payload r1 r2 :
  Match r1 = Match r2 →
  Mode r1 = Mode r2 →
  PayloadField (Envelope r1) = PayloadField (Envelope r2) →
  TypeURLField (Envelope r1) = TypeURLField (Envelope r2) →
  ClientSigField (Envelope r1) = ClientSigField (Envelope r2) →
  ProxySigField (Envelope r1) = ProxySigField (Envelope r2) →
  processMsg g method isReq payload r1 = processMsg g method isReq payload r2.
Proof.
  destruct r1 as [m1 mo1 [p1 t1 c1 s1 x1]], r2 as [m2 mo2 [p2 t2 c2 s2 x2]].
  simpl. intros -> -> -> -> -> ->. reflexivity.
Qed.

(** Claim C2, amended.  On a route whose mode is
    [inspect-verify-sign], if the unmarshal of the frame, the write of the
    proxy signature field or the re-marshal fails, the envelope processor
    returns the received frame byte for byte and the pump forwards it. *)
Theorem recoverable_failure_forwards_original g method isReq frame route s :
  Mode route = "inspect-verify-sign" →
  s ∈ [StepUnmarshal; StepFieldWrite; StepMarshal] →
  stepFails g method isReq frame route s →
  result (processMsg g method isReq frame route) = frame ∧
  result (pumpFrame g method route isReq frame) = inr frame.
Proof.
  intros Hmode Hs Hfail.
  assert (result (processMsg g method isReq frame route) = frame) as Hp.
  { rewrite processMsg_result, Hmode. cbn [String.eqb].
    change ("inspect-verify-sign" =? "inspect-verify-sign")%string with true.
    cbv iota.
    repeat (apply elem_of_cons in Hs as [->|Hs]); [..|by apply elem_of_nil in Hs].
    - destruct Hfail as (msgDesc & Hd & Hu).
      unfold decodeFrame. rewrite Hd. cbn. by rewrite Hu.
    - destruct Hfail as (m & -> & Hw). by rewrite Hw.
    - destruct Hfail as (m & m' & -> & Hw & Hm). by rewrite Hw, Hm. }
  split; [done|]. rewrite pumpFrame_result, Hp. by destruct (String.eqb _ _).
Qed.


(** The signature does not depend on the direction, on the client
    signature or on any other field of the message: equal payload bytes
    give equal signature bytes. *)
Lemma signingStage_deterministic g isReq1 isReq2 route1 route2 m1 m2 :
  getBytesField m1 (PayloadField (Envelope route1)) =
  getBytesField m2 (PayloadField (Envelope route2)) →
  result (signingStage g isReq1 route1 m1) = result (signingStage g isReq2 route2 m2).
Proof.
  intros Hp. unfold signingStage. rewrite Hp.
  destruct (String.eqb (cryptoEngine g) "rust").
  - unfold rustEngine. run. destruct (negb _); by run.
  - unfold goEngine. run. destruct (proxyPrivateKey g); run; [|done].
    destruct (rsa_SignPKCS1v15 _ _); by run.
Qed.

(** The pure-Go branch never verifies: it neither calls a verify
    function nor logs a verdict. *)
Lemma goEngine_never_verifies g dir payloadBytes clientSig :
  quiet is_verify (trace (goEngine g dir payloadBytes clientSig)).
Proof.
  unfold goEngine. run. apply quiet_app.
  - destruct (_ && _); by repeat constructor.
  - destruct (proxyPrivateKey g); run; [|by repeat constructor].
    destruct (rsa_SignPKCS1v15 _ _); by repeat constructor.
Qed.

Lemma inspectInner_never_verifies g dir payloadBytes typeURL :
  quiet is_verify (trace (inspectInner g dir payloadBytes typeURL)).
Proof.
  unfold inspectInner.
  destruct (_ && _); [|apply quiet_nil].
  destruct (findDescByType _ _); [|apply quiet_nil].
  run. apply quiet_app; [by repeat constructor|].
  destruct (Unmarshal _ _); [by repeat constructor|apply quiet_nil].
Qed.

(** So with any engine but ["rust"] no frame is ever verified. *)
Lemma processMsg_native_never_verifies g method isReq payload route :
  cryptoEngine g ≠ "rust" →
  quiet is_verify (trace (processMsg g method isReq payload route)).
Proof.
  intros Hengine. unfold processMsg.
  destruct (methodDescriptors g !! method) as [md|]; run;
    [|by repeat constructor].
  apply quiet_app; [by repeat constructor|].
  destruct (Unmarshal _ payload) as [m|]; run; [|by repeat constructor].
  apply quiet_app; [by repeat constructor|].
  apply quiet_app; [apply inspectInner_never_verifies|].
  destruct (String.eqb (Mode route) "inspect-verify-sign"); [|apply quiet_nil].
  run. destruct (String.eqb_spec (cryptoEngine g) "rust"); [done|].
  apply quiet_app; [apply goEngine_never_verifies|].
  destruct (TrySetFieldByName _ _ _); run; [|by repeat constructor].
  apply quiet_app; [by repeat constructor|].
  destruct (Marshal _); by repeat constructor.
Qed.

(** The foreign branch does verify: when the client signature and the
    cached public key are non-empty, [RustVerifySignature] is called on
    the payload and the signature, and its verdict is logged. *)
Lemma rustEngine_reports_verdict g dir payloadBytes clientSig :
  clientSig ≠ [] → clientPublicKeyPEM g ≠ [] →
  ∃ rest,
    trace (rustEngine g dir payloadBytes clientSig) =
    trace (RustVerifySignature payloadBytes clientSig (clientPublicKeyPEM g)) ++
    Log (if result (RustVerifySignature payloadBytes clientSig (clientPublicKeyPEM g))
         then RustVerified dir (length clientSig) (length payloadBytes)
         else RustVerificationFailed dir) :: rest.
Proof.
  intros Hsig Hpem. unfold rustEngine. run.
  destruct clientSig as [|c clientSig]; [done|].
  destruct (clientPublicKeyPEM g) as [|k pem]; [done|].
  cbn [length Nat.eqb negb andb]. run. rewrite <- app_assoc.
  eexists. f_equal.
  by destruct (result (RustVerifySignature _ _ _)).
Qed.

End ProxyFacts.

(** ** The wire-level implementation obeys the contract *)

Module WireFacts.
Import Wire.

Lemma to_N_byte_of_N n : (n < 256)%N → Byte.to_N (byte_of_N n) = n.
Proof.
  intros Hn. unfold byte_of_N.
  destruct (Byte.of_N n) as [b|] eqn:Hb; simpl.
  - by apply Byte.to_of_N.
  - apply Byte.of_N_None_iff in Hb. lia.
Qed.

Lemma decode_putVarint fuel n rest :
  (n < 128 ^ N.of_nat (S fuel))%N →
  decodeVarint (putVarint fuel n ++ rest) = Some (n, rest).
Proof.
  revert n. induction fuel as [|fuel IH]; intros n Hn.
  - change (128 ^ N.of_nat 1)%N with 128%N in Hn.
    simpl. rewrite N.mod_small by done.
    rewrite to_N_byte_of_N by lia.
    by destruct (N.ltb_spec n 128); [|lia].
  - cbn [putVarint]. destruct (N.ltb_spec n 128) as [Hlt|Hge].
    + simpl. rewrite to_N_byte_of_N by lia.
      by destruct (N.ltb_spec n 128); [|lia].
    + assert (n `div` 128 < 128 ^ N.of_nat (S fuel))%N as Hq.
      { rewrite Nat2N.inj_succ, N.pow_succ_r' in Hn.
        by apply N.Div0.div_lt_upper_bound. }
      pose proof (N.div_mod n 128 ltac:(done)) as Hdm.
      pose proof (N.mod_lt n 128 ltac:(done)) as Hr.
      revert Hdm Hr Hq. generalize (n `div` 128)%N (n `mod` 128)%N.
      intros q r Hdm Hr Hq.
      cbn [app decodeVarint]. rewrite to_N_byte_of_N by lia.
      destruct (N.ltb_spec (128 + r) 128); [lia|].
      rewrite IH by done. simpl. do 2 f_equal. lia.
Qed.

Lemma decode_encodeVarint n rest :
  decodeVarint (encodeVarint n ++ rest) = Some (n, rest).
Proof.
  apply decode_putVarint. rewrite Nat2N.inj_succ, N2Nat.id.
  destruct (decide (n = 0%N)) as [->|Hn]; [done|].
  pose proof (N.log2_spec n ltac:(lia)) as [_ Hlt].
  eapply N.lt_le_trans; [exact Hlt|].
  apply N.pow_le_mono_l. done.
Qed.

Lemma putVarint_nonempty fuel n : putVarint fuel n ≠ [].
Proof. destruct fuel; simpl; [done|]. by destruct (_ <? _)%N. Qed.

Lemma encodeField_nonempty f : ∃ b bs, encodeField f = b :: bs.
Proof.
  unfold encodeField, encodeVarint.
  destruct (putVarint _ (N.pos f.1 * 8 + 2)) as [|b bs] eqn:Hp.
  - by apply putVarint_nonempty in Hp.
  - by eexists _, _.
Qed.

Lemma parseFields_step fuel bs :
  bs ≠ [] →
  parseFields (S fuel) bs =
  '(key, bs1) ← decodeVarint bs;
  if negb (key `mod` 8 =? 2)%N then None
  else match (key `div` 8)%N with
       | N0 => None
       | Npos num =>
           '(len, bs2) ← decodeVarint bs1;
           if (length bs2 <? N.to_nat len)%nat then None
           else rest ← parseFields fuel (drop (N.to_nat len) bs2);
                Some ((num, take (N.to_nat len) bs2) :: rest)
       end.
Proof. by destruct bs. Qed.

Lemma parse_encodeField fuel f tail :
  parseFields (S fuel) (encodeField f ++ tail) =
  rest ← parseFields fuel tail; Some (f :: rest).
Proof.
  rewrite parseFields_step.
  2:{ destruct (encodeField_nonempty f) as (b & bs & ->). done. }
  destruct f as [num v]. unfold encodeField. cbn [fst snd].
  rewrite <- !app_assoc, decode_encodeVarint. cbn [mbind option_bind].
  replace ((N.pos num * 8 + 2) `mod` 8)%N with 2%N
    by (rewrite N.add_comm, N.Div0.mod_add; done).
  replace ((N.pos num * 8 + 2) `div` 8)%N with (N.pos num)
    by (rewrite N.div_add_l by done; change (2 `div` 8)%N with 0%N; lia).
  cbn [N.eqb Pos.eqb negb].
  rewrite decode_encodeVarint. cbn [mbind option_bind].
  rewrite Nat2N.id, length_app.
  destruct (Nat.ltb_spec (length v + length tail) (length v)); [lia|].
  by rewrite drop_app_length, take_app_length.
Qed.

Lemma length_encodeFields fs : (length fs ≤ length (encodeFields fs))%nat.
Proof.
  induction fs as [|f fs IH]; [done|]. cbn [encodeFields].
  destruct (encodeField_nonempty f) as (b & bs & ->).
  rewrite length_app. simpl. lia.
Qed.

Lemma parse_encodeFields fs fuel :
  (length fs ≤ fuel)%nat → parseFields fuel (encodeFields fs) = Some fs.
Proof.
  revert fuel. induction fs as [|f fs IH]; intros fuel Hfuel.
  - by destruct fuel.
  - destruct fuel as [|fuel]; [simpl in Hfuel; lia|].
    cbn [encodeFields]. rewrite parse_encodeField, IH; [done|].
    simpl in Hfuel. lia.
Qed.

Lemma decode_encodeFields fs : decodeFields (encodeFields fs) = Some fs.
Proof. apply parse_encodeFields, length_encodeFields. Qed.


Lemma lastValue_app num fs v :
  lastValue num (fs ++ [(num, v)]) = Some v.
Proof.
  induction fs as [|[k w] fs IH]; simpl.
  - by rewrite Pos.eqb_refl.
  - by rewrite IH.
Qed.

Lemma lastValue_app_ne num num' fs v :
  num' ≠ num → lastValue num' (fs ++ [(num, v)]) = lastValue num' fs.
Proof.
  intros Hne. induction fs as [|[k w] fs IH]; simpl.
  - by destruct (Pos.eqb_spec num num'); [congruence|].
  - by rewrite IH.
Qed.

Lemma lastValue_without num fs : lastValue num (without num fs) = None.
Proof.
  induction fs as [|[k w] fs IH]; [done|]. unfold without in *. simpl.
  destruct (Pos.eqb_spec k num); simpl; [done|].
  rewrite IH. by destruct (Pos.eqb_spec k num).
Qed.

Lemma lastValue_without_ne num num' fs :
  num' ≠ num → lastValue num' (without num fs) = lastValue num' fs.
Proof.
  intros Hne. induction fs as [|[k w] fs IH]; [done|]. unfold without in *. simpl.
  destruct (Pos.eqb_spec k num) as [->|]; simpl; rewrite IH; [|done].
  destruct (lastValue num' fs); [done|].
  by destruct (Pos.eqb_spec num num'); [congruence|].
Qed.

Lemma findField_Some d name fd :
  findField d name = Some fd → fd ∈ md_fields d ∧ fd_name fd = name.
Proof.
  intros Hf. apply find_some in Hf as [Hin Heq].
  split; [by apply list_elem_of_In|by apply String.eqb_eq].
Qed.

Lemma numbers_distinct (fds : list FieldDescriptor) fd fd' :
  NoDup (fd_number <$> fds) → fd ∈ fds → fd' ∈ fds →
  fd_number fd = fd_number fd' → fd = fd'.
Proof.
  induction fds as [|x fds IH]; intros Hnd Hin Hin' Hnum.
  - by apply elem_of_nil in Hin.
  - rewrite fmap_cons in Hnd. apply NoDup_cons in Hnd as [Hx Hnd].
    apply elem_of_cons in Hin as [->|Hin], Hin' as [->|Hin']; [done| | |by apply IH].
    + exfalso. apply Hx. rewrite Hnum. by apply list_elem_of_fmap_2.
    + exfalso. apply Hx. rewrite <- Hnum. by apply list_elem_of_fmap_2.
Qed.

Lemma findField_numbers d name name' fd fd' :
  findField d name = Some fd → findField d name' = Some fd' →
  name' ≠ name → fd_number fd' ≠ fd_number fd.
Proof.
  intros [Hin <-]%findField_Some [Hin' <-]%findField_Some Hne Hnum.
  apply Hne. f_equal.
  eapply numbers_distinct; [|done..].
  pose proof (md_wf d) as Hwf. by apply bool_decide_unpack in Hwf.
Qed.

Lemma unmarshal_desc m data m' :
  unmarshal m data = Some m' → m_desc m' = m_desc m.
Proof.
  unfold unmarshal. intros Hu.
  destruct (decodeFields data); by simplify_eq/=.
Qed.

Lemma trySet_desc m name v m' :
  trySet m name v = Some m' → m_desc m' = m_desc m.
Proof.
  unfold trySet. intros Hs.
  destruct (findField _ _) as [fd|]; [|done]. cbn in Hs.
  destruct (match fd_type fd with TBytes => _ | _ => _ end); by simplify_eq/=.
Qed.

Lemma trySet_read_same m name b m' :
  trySet m name (VBytes b) = Some m' → tryGet m' name = Some (VBytes b).
Proof.
  unfold trySet, tryGet. intros Hs.
  destruct (findField (m_desc m) name) as [fd|] eqn:Hfd; [|done]. cbn in Hs.
  destruct (fd_type fd) eqn:Hty; simplify_eq/=.
  rewrite Hfd. cbn. rewrite Hty. cbn. do 2 f_equal.
  destruct b as [|b0 b]; cbn.
  - by rewrite app_nil_r, lastValue_without.
  - by rewrite lastValue_app.
Qed.

Lemma trySet_read_other m name v m' name' :
  trySet m name v = Some m' → name' ≠ name → tryGet m' name' = tryGet m name'.
Proof.
  unfold trySet, tryGet. intros Hs Hne.
  destruct (findField (m_desc m) name) as [fd|] eqn:Hfd; [|done]. cbn in Hs.
  destruct (match fd_type fd with TBytes => _ | _ => _ end) as [raw|];
    simplify_eq/=.
  destruct (findField (m_desc m) name') as [fd'|] eqn:Hfd'; [|done]. cbn.
  do 3 f_equal.
  pose proof (findField_numbers _ _ _ _ _ Hfd Hfd' Hne).
  destruct raw; [rewrite app_nil_r|rewrite lastValue_app_ne by done];
    by apply lastValue_without_ne.
Qed.

Lemma marshal_unmarshal m data :
  marshal m = Some data →
  ∃ m', unmarshal (mkMsg (m_desc m) []) data = Some m' ∧
        ∀ name, tryGet m' name = tryGet m name.
Proof.
  destruct m as [d fs]. unfold marshal. intros ?; simplify_eq/=.
  exists (mkMsg d fs). split; [|done].
  unfold unmarshal. by rewrite decode_encodeFields.
Qed.

(** The contract holds of the wire-level implementation. *)
Lemma laws : @DynamicLaws dynamic.
Proof.
  exact (Build_DynamicLaws dynamic (λ _, eq_refl) unmarshal_desc trySet_desc
           trySet_read_same trySet_read_other marshal_unmarshal).
Qed.



End WireFacts.

(** ** The processor on the example services *)

Section Scenarios.
Import Wire SmallRSA Echo WireFacts.

(** *** The claims at concrete frames *)


Lemma recoverable_failure_forwards_original_witness :
  result (processMsg goProxy "/echo.SecureService/SecureEcho" true
            truncatedFrame secureRoute) = truncatedFrame ∧
  result (pumpFrame goProxy "/echo.SecureService/SecureEcho" secureRoute true
            truncatedFrame) = inr truncatedFrame.
Proof.
  apply (recoverable_failure_forwards_original
           goProxy "/echo.SecureService/SecureEcho" true truncatedFrame
           secureRoute StepUnmarshal).
  - reflexivity.
  - apply list_elem_of_here.
  - exists SecureEnvelope. split; vm_compute; reflexivity.
Defined.

Lemma pass_thru_forwards_verbatim_witness :
  Mode (matchRoute (appConfig_Routes goProxy) "/echo.EchoService/UnaryEcho")
  = "pass-thru" ∧
  result (pumpFrame goProxy "/echo.EchoService/UnaryEcho"
            (matchRoute (appConfig_Routes goProxy) "/echo.EchoService/UnaryEcho")
            true echoFrame) = inr echoFrame ∧
  quiet is_decode
    (trace (pumpFrame goProxy "/echo.EchoService/UnaryEcho"
              (matchRoute (appConfig_Routes goProxy) "/echo.EchoService/UnaryEcho")
              true echoFrame)).
Proof.
  split; [reflexivity|].
  apply (pass_thru_forwards_verbatim goProxy "/echo.EchoService/UnaryEcho"
           true echoFrame).
  reflexivity.
Defined.

Lemma inspect_outer_returns_original_witness :
  Mode inspectOuterRoute = "inspect-outer" ∧
  result (processMsg goProxy "/echo.SecureService/InspectOuter" true
            inspectFrame inspectOuterRoute) = inspectFrame ∧
  quiet is_encode
    (trace (processMsg goProxy "/echo.SecureService/InspectOuter" true
              inspectFrame inspectOuterRoute)).
Proof.
  split; [reflexivity|].
  apply (inspect_outer_returns_original goProxy
           "/echo.SecureService/InspectOuter" true inspectFrame
           inspectOuterRoute).
  reflexivity.
Defined.

Lemma no_descriptor_returns_input_witness :
  methodDescriptors goProxy !! "/echo.SecureService/Audit" = None ∧
  result (processMsg goProxy "/echo.SecureService/Audit" false
            envelopeFrame secureRoute) = envelopeFrame ∧
  result (pumpFrame goProxy "/echo.SecureService/Audit" secureRoute false
            envelopeFrame) = inr envelopeFrame.
Proof.
  split; [vm_compute; reflexivity|].
  apply (no_descriptor_returns_input goProxy "/echo.SecureService/Audit"
           false envelopeFrame secureRoute).
  vm_compute. reflexivity.
Defined.

Lemma foreign_wrappers_short_circuit_witness :
  (result (RustVerifySignature [] clientSig publicKeyPEM) = false ∧
   quiet is_ffi (trace (RustVerifySignature [] clientSig publicKeyPEM))) ∧
  (result (RustSignPayload abc []) = None ∧
   quiet is_ffi (trace (RustSignPayload abc []))).
Proof.
  split.
  - apply (proj1 (foreign_wrappers_short_circuit [] clientSig publicKeyPEM [])).
    left. reflexivity.
  - apply (proj2 (foreign_wrappers_short_circuit abc [] [] [])).
    right. reflexivity.
Defined.

Lemma metadata_field_is_never_read_witness :
  MetadataField (Envelope secureRoute) ≠ MetadataField (Envelope relabelledRoute) ∧
  processMsg rustProxy "/echo.SecureService/SecureEcho" true signedFrame secureRoute
  = processMsg rustProxy "/echo.SecureService/SecureEcho" true signedFrame
      relabelledRoute.
Proof.
  split; [discriminate|].
  apply (metadata_field_is_never_read rustProxy
           "/echo.SecureService/SecureEcho" true signedFrame
           secureRoute relabelledRoute); reflexivity.
Defined.

(** *** Where the processor departs from the claims *)


(** [signedCopyOf] compares whole messages: a message whose [metadata]
    (field 5, which reads as an opaque value) differs, or which lacks an
    unknown field (number 9) of the original, is no signed copy of it. *)
Example signed_copy_compares_every_field :
  ¬ signedCopyOf
      (mkMsg SecureEnvelope [(1%positive, abc); (5%positive, [x01])])
      (mkMsg SecureEnvelope
         [(1%positive, abc); (5%positive, [x02]); (4%positive, [x04; x94])])
      "proxy_signature" [x04; x94] ∧
  ¬ signedCopyOf
      (mkMsg SecureEnvelope [(1%positive, abc); (9%positive, [x01])])
      (mkMsg SecureEnvelope [(1%positive, abc); (4%positive, [x04; x94])])
      "proxy_signature" [x04; x94].
Proof.
  split; intros [_ [old Hold]];
    (destruct old as [b| |]; [|discriminate Hold..]);
    destruct b; discriminate Hold.
Qed.

(** Claim C2 as stated fails: with a [payload_field] that names no field
    of the message the read fails, the processor carries on with an empty
    payload, and the forwarded frame has a signature appended. *)
Lemma failed_field_read_counterexample :
  ¬ forwardsOriginalOnEveryFailure goProxy "/echo.SecureService/SecureEcho"
      true envelopeFrame misnamedPayloadRoute.
Proof.
  intros Hclaim.
  specialize (Hclaim eq_refl StepFieldRead).
  assert (result (processMsg goProxy "/echo.SecureService/SecureEcho" true
                    envelopeFrame misnamedPayloadRoute) = envelopeFrame) as Heq.
  { apply Hclaim.
    exists (mkMsg SecureEnvelope [(1%positive, abc)]), "body".
    split; [vm_compute; reflexivity|].
    split; [discriminate|].
    split; [apply list_elem_of_here|vm_compute; reflexivity]. }
  vm_compute in Heq. discriminate Heq.
Qed.

(** When signing fails the processor still writes the (empty) signature
    and re-marshals: a frame that came with the slot filled leaves with
    the slot cleared. *)
Example failed_signing_clears_signature :
  stepFails badKeyProxy "/echo.SecureService/SecureEcho" true presignedFrame
    secureRoute StepSign ∧
  result (processMsg badKeyProxy "/echo.SecureService/SecureEcho" true
            presignedFrame secureRoute) = envelopeFrame ∧
  envelopeFrame ≠ presignedFrame.
Proof.
  split; [|split; [vm_compute; reflexivity|discriminate]].
  exists (mkMsg SecureEnvelope [(1%positive, abc); (4%positive, [x2a])]).
  split; [vm_compute; reflexivity|]. split; [discriminate|vm_compute; reflexivity].
Qed.

(** Claim C3 at ["/foo.Barnacle/Baz"].  The rule ["/foo.Bar/*"] is
    matched against the prefix ["/foo.Bar"], the slash being trimmed with
    the star: it is returned for ["/foo.Bar/Baz"], and for
    ["/foo.Barnacle/Baz"] as well, where the claim has the synthetic
    pass-through rule. *)
Theorem wildcard_rule_matches_across_service_names :
  TrimSuffix "/foo.Bar/*" "/*" = "/foo.Bar" ∧
  matchRoute [barRoute] "/foo.Bar/Baz" = barRoute ∧
  matchRoute [barRoute] "/foo.Barnacle/Baz" = barRoute ∧
  barRoute ≠ defaultRoute.
Proof. repeat split; [reflexivity..|discriminate]. Qed.

(** Claim C4 at a frame with a wrong client signature, the trust store
    being configured.  With [-crypto=go] the processor logs that it is
    verifying and signs: no verify operation is invoked and no failure is
    reported.  With [-crypto=rust] the same frame is verified and the
    failure is logged; in both cases a frame is forwarded. *)
Theorem native_engine_skips_verification :
  decodeFrame goProxy "/echo.SecureService/SecureEcho" true forgedFrame
  = Some (mkMsg SecureEnvelope [(1%positive, abc); (3%positive, [x00; x01])]) ∧
  is_Some (clientTrustPool goProxy) ∧
  verify_signature abc [x00; x01] publicKeyPEM = false ∧
  trace (processMsg goProxy "/echo.SecureService/SecureEcho" true forgedFrame
           secureRoute)
  = [ Call (Dyn_Unmarshal forgedFrame);
      Log (EnvelopeDump "Request" "/echo.SecureService/SecureEcho"
             "{payload,client_signature}");
      Log (GoVerifying "Request" 2 3);
      Log (GoSigning "Request");
      Call (Go_SignPKCS1v15 (digest abc));
      Call Dyn_Marshal ] ∧
  Log (RustVerificationFailed "Request")
    ∈ trace (processMsg rustProxy "/echo.SecureService/SecureEcho" true
               forgedFrame secureRoute).
Proof.
  split; [vm_compute; reflexivity|].
  split; [eexists; reflexivity|].
  split; [vm_compute; reflexivity|].
  split; [vm_compute; reflexivity|].
  vm_compute. do 3 apply list_elem_of_further. apply list_elem_of_here.
Qed.

(** The inner payload of [inspectFrame] is found by the suffix of its
    type URL and decoded for the log. *)
Example inspect_outer_decodes_inner_payload :
  Log (InnerPayloadDecoded "Request" "type.googleapis.com/echo.EchoRequest"
         "{message}")
    ∈ trace (processMsg goProxy "/echo.SecureService/InspectOuter" true
               inspectFrame inspectOuterRoute).
Proof. vm_compute. do 3 apply list_elem_of_further. apply list_elem_of_here. Qed.

End Scenarios.

(** * Further properties of the code *)

(** ** The route matcher and the type suffix *)

Section MoreRouteFacts.

(** Property X1.  A route pattern accepts a method id exactly when it has
    the form p/* and the id starts with p, or it does not end in /* and
    equals the id. *)
Theorem routeMatches_characterised matchPattern methodName :
  routeMatches matchPattern methodName = true ↔
  (∃ p rest, matchPattern = p +:+ "/*" ∧ methodName = p +:+ rest) ∨
  (HasSuffix matchPattern "/*" = false ∧ matchPattern = methodName).
Proof.
  destruct (HasSuffix matchPattern "/*") eqn:Hs.
  - apply HasSuffix_spec in Hs as [p ->]. rewrite routeMatches_wildcard.
    split.
    + intros [rest ->]. left. by exists p, rest.
    + intros [(p' & rest & Hp & ->)|[Hs _]].
      * assert (p' = p) as ->; [|by eexists].
        rewrite <- (TrimSuffix_app p "/*"), <- (TrimSuffix_app p' "/*").
        by rewrite Hp.
      * assert (HasSuffix (p +:+ "/*") "/*" = true) by (apply HasSuffix_spec; eauto).
        congruence.
  - rewrite routeMatches_exact by done. split.
    + intros ->. by right.
    + intros [(p & rest & -> & _)|[_ ->]]; [|done].
      assert (HasSuffix (p +:+ "/*") "/*" = true) by (apply HasSuffix_spec; eauto).
      congruence.
Qed.

(** Property X2.  If no rule before a given rule accepts the method id and
    that rule does, matchRoute returns that rule, whatever follows it in the
    list. *)
Theorem matchRoute_returns_first_match earlier route later methodName :
  Forall (λ r, routeMatches (Match r) methodName = false) earlier →
  routeMatches (Match route) methodName = true →
  matchRoute (earlier ++ route :: later) methodName = route.
Proof.
  intros Hearlier Hroute.
  induction Hearlier as [|r earlier Hr _ IH]; simpl.
  - by rewrite Hroute.
  - by rewrite Hr.
Qed.

(** Property X3.  matchRoute returns either a rule of the configured list
    that accepts the method id, or the synthetic pass-thru rule with an
    empty envelope, and the latter only when no configured rule accepts the
    id (in particular for an empty list). *)
Theorem matchRoute_result routes methodName :
  (matchRoute routes methodName ∈ routes ∧
   routeMatches (Match (matchRoute routes methodName)) methodName = true) ∨
  (matchRoute routes methodName = defaultRoute ∧
   Forall (λ r, routeMatches (Match r) methodName = false) routes).
Proof.
  induction routes as [|r routes IH]; simpl.
  - right. by split.
  - destruct (routeMatches (Match r) methodName) eqn:Hr.
    + left. split; [apply list_elem_of_here|done].
    + destruct IH as [[Hin Hm]|[Hd Hall]].
      * left. split; [by apply list_elem_of_further|done].
      * right. split; [done|by constructor].
Qed.

(** Property X4.  When the rule list contains a rule with pattern '/*',
    every method id is answered with a configured rule: the synthetic pass-
    thru default is never returned. *)
Theorem catch_all_rule_leaves_no_default routes route methodName :
  route ∈ routes → Match route = "/*" →
  matchRoute routes methodName ∈ routes.
Proof.
  intros Hin Hm.
  destruct (matchRoute_result routes methodName) as [[? _]|[_ Hall]]; [done|].
  rewrite Forall_forall in Hall. specialize (Hall route Hin).
  rewrite Hm in Hall.
  assert (routeMatches "/*" methodName = true) as Ht; [|congruence].
  apply (routeMatches_wildcard "" methodName). by exists methodName.
Qed.

Lemma Split_nonempty sep s : Split sep s ≠ [].
Proof.
  destruct s as [|c s]; simpl; [done|].
  destruct (Ascii.eqb c sep); [done|]. by destruct (Split sep s).
Qed.

Lemma Split_singleton sep s piece : Split sep s = [piece] → piece = s.
Proof.
  revert piece. induction s as [|c s IH]; intros piece; simpl.
  - by intros [= <-].
  - destruct (Ascii.eqb c sep).
    + intros [= <- Hs]. by apply Split_nonempty in Hs.
    + destruct (Split sep s) as [|h t] eqn:Hs.
      { by apply Split_nonempty in Hs. }
      intros [= <- ->]. by rewrite (IH h).
Qed.

Lemma lastSegment_aux_Split sep s acc :
  lastSegment_aux sep s acc =
  match Split sep s with
  | [_] => acc
  | pieces => default acc (last pieces)
  end.
Proof.
  revert acc. induction s as [|c s IH]; intros acc; simpl; [done|].
  destruct (Ascii.eqb c sep).
  - rewrite IH. destruct (Split sep s) as [|h [|h' t]] eqn:Hs.
    + by apply Split_nonempty in Hs.
    + simpl. by apply Split_singleton in Hs.
    + assert (is_Some (last (h :: h' :: t))) as [x Hx] by by apply last_is_Some.
      change (last ("" :: h :: h' :: t)) with (last (h :: h' :: t)).
      by rewrite Hx.
  - rewrite IH. destruct (Split sep s) as [|h [|h' t]] eqn:Hs; [done..|].
    by change (last (String c h :: h' :: t)) with (last (h :: h' :: t)).
Qed.

Lemma lastSegment_aux_suffix sep s acc :
  lastSegment_aux sep s acc = acc ∨
  ∃ pre, s = pre +:+ lastSegment_aux sep s acc.
Proof.
  revert acc. induction s as [|c s IH]; intros acc; simpl; [by left|].
  destruct (Ascii.eqb c sep).
  - right. destruct (IH s) as [->|[pre Hpre]].
    + by exists (String c "").
    + exists (String c pre).
      change (String c pre +:+ ?x) with (String c (pre +:+ x)). by f_equal.
  - destruct (IH acc) as [->|[pre Hpre]]; [by left|right].
    exists (String c pre).
    change (String c pre +:+ ?x) with (String c (pre +:+ x)). by f_equal.
Qed.

Lemma Split_pieces_have_no_sep sep s :
  Forall (λ piece, sep ∉ list_ascii_of_string piece) (Split sep s).
Proof.
  induction s as [|c s IH]; simpl.
  - repeat constructor. apply not_elem_of_nil.
  - destruct (Ascii.eqb_spec c sep) as [->|Hc].
    + constructor; [apply not_elem_of_nil|done].
    + destruct (Split sep s) as [|h t]; simpl.
      * repeat constructor. simpl. by intros [->|?%elem_of_nil]%elem_of_cons.
      * apply Forall_cons in IH as [Hh Ht]. constructor; [|done].
        simpl. intros [->|?]%elem_of_cons; done.
Qed.

(** Property X5.  The type suffix processMsg takes from a type URL is the
    last piece of strings.Split(typeURL, '/') (the index is always in
    range), the URL ends with it, and it contains no slash. *)
Theorem type_suffix_is_last_piece typeURL :
  last (Split "/" typeURL) = Some (lastSegment "/" typeURL) ∧
  HasSuffix typeURL (lastSegment "/" typeURL) = true ∧
  "/"%char ∉ list_ascii_of_string (lastSegment "/" typeURL).
Proof.
  assert (last (Split "/" typeURL) = Some (lastSegment "/" typeURL)) as Hlast.
  { unfold lastSegment. rewrite lastSegment_aux_Split.
    destruct (Split "/" typeURL) as [|h [|h' t]] eqn:Hs.
    - by apply Split_nonempty in Hs.
    - simpl. f_equal. by apply Split_singleton in Hs.
    - by assert (is_Some (last (h :: h' :: t))) as [x ->]
        by by apply last_is_Some. }
  split; [done|]. split.
  - apply HasSuffix_spec. unfold lastSegment.
    destruct (lastSegment_aux_suffix "/" typeURL typeURL) as [->|[pre Hpre]].
    + by exists "".
    + by exists pre.
  - pose proof (Split_pieces_have_no_sep "/" typeURL) as Hall.
    rewrite Forall_forall in Hall. apply Hall.
    by apply last_Some_elem_of.
Qed.

End MoreRouteFacts.

(** ** The pumps and the handler *)

Section DirectorFacts.
Context `{DynamicLib} `{CryptoLib}.

Ltac run := rewrite ?trace_bind, ?result_bind, ?trace_logPrintf, ?trace_call,
                    ?trace_ret, ?result_ret.

Lemma pumpFrame_forwardOf g method route isReq data :
  result (pumpFrame g method route isReq data)
  = inr (forwardOf g method route isReq data).
Proof. by rewrite pumpFrame_result. Qed.

Lemma pumpLoop_cons g method route isReq data rest recvErr sendErr n :
  result (pumpLoop g method route isReq (data :: rest) recvErr sendErr n) =
  match sendErr n with
  | Some err => ([], err)
  | None =>
      let r := result (pumpLoop g method route isReq rest recvErr sendErr (S n)) in
      (forwardOf g method route isReq data :: r.1, r.2)
  end.
Proof.
  cbn [pumpLoop]. run. rewrite pumpFrame_forwardOf.
  destruct (sendErr n); [done|]. run.
  by destruct (result (pumpLoop _ _ _ _ rest _ _ _)).
Qed.

(** Property X6.  The frames a pump has sent when it ends are the processed
    images of a prefix of the frames it received, in the order received. *)
Theorem pump_forwards_prefix_in_order g method route isReq inbox recvErr sendErr n :
  (result (pumpLoop g method route isReq inbox recvErr sendErr n)).1 =
  forwardOf g method route isReq <$>
    take (length (result (pumpLoop g method route isReq inbox recvErr sendErr n)).1)
         inbox.
Proof.
  revert n. induction inbox as [|data rest IH]; intros n; [done|].
  rewrite pumpLoop_cons. destruct (sendErr n); [done|].
  cbn. f_equal. apply IH.
Qed.

(** Property X7.  If no SendMsg fails, a pump sends the processed image of
    every frame it received, in order, and reports the error its RecvMsg
    ended with. *)
Theorem pump_without_send_error g method route isReq inbox recvErr sendErr n :
  (∀ k, k < length inbox → sendErr (n + k) = None) →
  result (pumpLoop g method route isReq inbox recvErr sendErr n) =
  (forwardOf g method route isReq <$> inbox, recvErr).
Proof.
  revert n. induction inbox as [|data rest IH]; intros n Hsend; [done|].
  rewrite pumpLoop_cons.
  rewrite <- (Nat.add_0_r n) at 1. rewrite Hsend by (simpl; lia).
  rewrite IH; [done|].
  intros k Hk. replace (S n + k) with (n + S k) by lia. apply Hsend. simpl. lia.
Qed.

(** Property X8.  If the k-th SendMsg of a pump is the first to fail, the
    pump has sent exactly the first k processed frames, reports that send
    error, and neither decodes nor logs anything for the frames after the
    failing one. *)
Theorem pump_stops_at_send_error
    g method route isReq inbox recvErr recvErr' sendErr n k err :
  k < length inbox →
  (∀ j, j < k → sendErr (n + j) = None) →
  sendErr (n + k) = Some err →
  result (pumpLoop g method route isReq inbox recvErr sendErr n) =
    (forwardOf g method route isReq <$> take k inbox, err) ∧
  pumpLoop g method route isReq inbox recvErr sendErr n =
    pumpLoop g method route isReq (take (S k) inbox) recvErr' sendErr n.
Proof.
  revert n k. induction inbox as [|data rest IH]; intros n k Hk Hbefore Hat.
  - simpl in Hk. lia.
  - destruct k as [|k].
    + rewrite Nat.add_0_r in Hat. split.
      * rewrite pumpLoop_cons, Hat. done.
      * cbn [take pumpLoop].
        destruct (pumpFrame g method route isReq data) as [[e|frame] t];
          unfold mbind, M_bind; [reflexivity|]. by rewrite Hat.
    + assert (sendErr n = None) as Hn.
      { rewrite <- (Nat.add_0_r n). apply Hbefore. lia. }
      destruct (IH (S n) k) as [Hres Heq].
      * simpl in Hk. lia.
      * intros j Hj. replace (S n + j) with (n + S j) by lia. apply Hbefore. lia.
      * by replace (S n + k) with (n + S k) by lia.
      * split.
        -- rewrite pumpLoop_cons, Hn, Hres. done.
        -- cbn [take pumpLoop].
           destruct (pumpFrame g method route isReq data) as [[e|frame] t];
             unfold mbind, M_bind; [reflexivity|]. rewrite Hn. by rewrite Heq.
Qed.

(** Property X9.  For a method id that no configured rule accepts, a pump
    whose sends succeed forwards every received frame byte for byte, in
    order, with no decode and no log line. *)
Theorem unmatched_method_is_proxied_verbatim g method isReq inbox recvErr sendErr n :
  Forall (λ r, routeMatches (Match r) method = false) (appConfig_Routes g) →
  (∀ k, k < length inbox → sendErr (n + k) = None) →
  pumpLoop g method (matchRoute (appConfig_Routes g) method) isReq inbox
    recvErr sendErr n = ((inbox, recvErr), []).
Proof.
  intros Hno Hsend. rewrite (matchRoute_no_match _ _ Hno).
  revert n Hsend. induction inbox as [|data rest IH]; intros n Hsend; [done|].
  cbn [pumpLoop]. rewrite pumpFrame_pass_thru by done.
  unfold mbind, M_bind.
  rewrite <- (Nat.add_0_r n) at 1. rewrite Hsend by (simpl; lia).
  rewrite IH; [done|].
  intros k Hk. replace (S n + k) with (n + S k) by lia. apply Hsend. simpl. lia.
Qed.

(** Property X10.  transparentHandler returns nil exactly when the method
    name is available, dial and stream creation succeed, the backend-to-
    client pump reports io.EOF, and either that report is selected first or
    the client-to-backend pump reported io.EOF; it never returns io.EOF
    itself. *)
Theorem handler_succeeds_only_on_backend_eof env :
  ((transparentHandler env).1 = None ↔
   is_Some (methodFromServerStream env) ∧ dialError env = None ∧
   newClientStreamError env = None ∧ s2cReport env = EOF ∧
   (s2cFirst env = true ∨ c2sReport env = EOF)) ∧
  (transparentHandler env).1 ≠ Some EOF.
Proof.
  destruct env as [[m|] [d|] [s|] [] [|?] [|?]]; cbn;
    (split; [split; [try done; intros _; repeat split; eauto|
                     intros (Hm & ? & ? & ? & Hc); try done;
                     try (by destruct Hm); try (by destruct Hc)]
            |done]).
Qed.

Lemma transparentHandler_steps env :
  (transparentHandler env).2 =
  match methodFromServerStream env, dialError env, newClientStreamError env with
  | None, _, _ => []
  | Some _, Some _, _ => [Dial]
  | Some m, None, Some _ => [Dial; NewClientStream m] ++ [ClientCancel; BackendConnClose]
  | Some m, None, None =>
      ([Dial; NewClientStream m; SpawnPumps] ++
       (if s2cFirst env then []
        else match c2sReport env with EOF => [CloseSend] | _ => [] end)) ++
      [ClientCancel; BackendConnClose]
  end.
Proof.
  unfold transparentHandler, awaitPumps.
  by destruct env as [[m|] [d|] [s|] [] [|?] [|?]].
Qed.

Ltac mem_solve :=
  repeat match goal with
  | H : _ ∈ [] |- _ => by apply elem_of_nil in H
  | H : _ ∈ _ :: _ |- _ => apply elem_of_cons in H as [H|H]; try discriminate H
  | H : is_Some None |- _ => by destruct H
  | H : _ ∧ _ |- _ => destruct H
  | |- _ ∈ _ => first [apply list_elem_of_here | apply list_elem_of_further]
  | |- _ ∧ _ => split
  | |- is_Some (Some _) => by eexists
  | |- _ ∉ _ => intros ?
  end; try done.

(** Property X11.  transparentHandler calls CloseSend exactly when set-up
    succeeded and the client-to-backend pump's io.EOF is selected first; it
    closes the backend connection exactly when the dial succeeded, and then
    the deferred cancel and close are its last two steps and happen once. *)
Theorem handler_half_close_and_cleanup env :
  (CloseSend ∈ (transparentHandler env).2 ↔
   is_Some (methodFromServerStream env) ∧ dialError env = None ∧
   newClientStreamError env = None ∧ s2cFirst env = false ∧
   c2sReport env = EOF) ∧
  (BackendConnClose ∈ (transparentHandler env).2 ↔
   is_Some (methodFromServerStream env) ∧ dialError env = None) ∧
  (BackendConnClose ∈ (transparentHandler env).2 →
   ∃ before,
     ((transparentHandler env).2 = before ++ [ClientCancel; BackendConnClose]) ∧
     (BackendConnClose ∉ before) ∧ (ClientCancel ∉ before)).
Proof.
  rewrite transparentHandler_steps.
  destruct (methodFromServerStream env) as [m|], (dialError env) as [d|],
    (newClientStreamError env) as [s|], (s2cFirst env), (c2sReport env);
    cbn [app];
    (split; [split; intros; mem_solve|]);
    (split; [split; intros; mem_solve|]);
    intros Hin; try (by mem_solve);
    match goal with
    | |- ∃ _, ?l = _ ∧ _ => exists (take (length l - 2) l)
    end; simpl; mem_solve.
Qed.

End DirectorFacts.

(** ** The envelope processor and the foreign wrappers *)

Section ProcessorFacts.
Context `{DynamicLib} `{CryptoLib}.

Ltac run := rewrite ?trace_bind, ?result_bind, ?trace_logPrintf, ?trace_call,
                    ?trace_ret, ?result_ret.

Ltac quiet_events :=
  repeat first [ apply quiet_nil
               | apply quiet_app
               | by repeat constructor ].

(** Property X12.  processMsg returns either its input bytes, or, on an
    inspect-verify-sign route, the Marshal of the decoded message after a
    successful write of the signing stage's bytes into proxy_sig_field. *)
Theorem processed_frame_is_original_or_fresh g method isReq payload route :
  result (processMsg g method isReq payload route) = payload ∨
  (Mode route = "inspect-verify-sign" ∧
   ∃ m m',
     decodeFrame g method isReq payload = Some m ∧
     TrySetFieldByName m (ProxySigField (Envelope route))
       (VBytes (result (signingStage g isReq route m))) = Some m' ∧
     Marshal m' = Some (result (processMsg g method isReq payload route))).
Proof.
  rewrite processMsg_result.
  destruct (decodeFrame g method isReq payload) as [m|]; [|by left].
  destruct (String.eqb_spec (Mode route) "inspect-verify-sign"); [|by left].
  destruct (TrySetFieldByName _ _ _) as [m'|] eqn:Hset; [|by left].
  destruct (Marshal m') as [newPayload|] eqn:Hmar; [|by left].
  right. split; [done|]. by exists m, m'.
Qed.

Lemma inspectInner_never_calls_crypto g dir payloadBytes typeURL :
  quiet is_crypto (trace (inspectInner g dir payloadBytes typeURL)).
Proof.
  unfold inspectInner.
  destruct (_ && _); [|apply quiet_nil].
  destruct (findDescByType _ _); [|apply quiet_nil].
  run. apply quiet_app; [by repeat constructor|].
  destruct (Unmarshal _ _); [by repeat constructor|apply quiet_nil].
Qed.

(** Property X13.  On a route whose mode is anything but inspect-verify-sign
    (inspect-outer, or an unknown or misspelled mode), processMsg returns
    its input bytes and never calls Marshal, a signing function or the
    foreign library. *)
Theorem other_modes_only_inspect g method isReq payload route :
  Mode route ≠ "inspect-verify-sign" →
  result (processMsg g method isReq payload route) = payload ∧
  quiet is_encode (trace (processMsg g method isReq payload route)) ∧
  quiet is_crypto (trace (processMsg g method isReq payload route)).
Proof.
  intros Hmode. split; [|split].
  - rewrite processMsg_result.
    destruct (decodeFrame _ _ _ _); [|done].
    by destruct (String.eqb_spec (Mode route) "inspect-verify-sign").
  - by apply processMsg_no_encode.
  - unfold processMsg.
    destruct (methodDescriptors g !! method) as [md|]; run;
      [|by repeat constructor].
    apply quiet_app; [by repeat constructor|].
    destruct (Unmarshal _ payload) as [m|]; run; [|by repeat constructor].
    apply quiet_app; [by repeat constructor|].
    apply quiet_app; [apply inspectInner_never_calls_crypto|].
    destruct (String.eqb_spec (Mode route) "inspect-verify-sign"); [done|].
    apply quiet_nil.
Qed.

(** Property X14.  The bytes processMsg returns depend on the route only
    through mode, payload_field and proxy_sig_field: two rules that agree on
    these give the same bytes, whatever their match pattern, type_url_field,
    client_sig_field and metadata_field. *)
Theorem forwarded_bytes_ignore_other_route_fields g method isReq payload r1 r2 :
  Mode r1 = Mode r2 →
  PayloadField (Envelope r1) = PayloadField (Envelope r2) →
  ProxySigField (Envelope r1) = ProxySigField (Envelope r2) →
  result (processMsg g method isReq payload r1)
  = result (processMsg g method isReq payload r2).
Proof.
  intros Hmode Hpayload Hsig. rewrite !processMsg_result, Hmode, Hsig.
  destruct (decodeFrame g method isReq payload) as [m|]; [|done].
  by rewrite (signingStage_deterministic g isReq isReq r1 r2 m m)
    by by rewrite Hpayload.
Qed.

(** Property X15.  For a method whose input and output message types are the
    same, processMsg returns the same bytes for a frame in the request
    direction and in the response direction. *)
Theorem transform_is_the_same_in_both_directions g method md payload route :
  methodDescriptors g !! method = Some md →
  GetInputType md = GetOutputType md →
  result (processMsg g method true payload route)
  = result (processMsg g method false payload route).
Proof.
  intros Hmd Htypes. rewrite !processMsg_result.
  unfold decodeFrame, resolveDescriptor. rewrite Hmd. cbn. rewrite Htypes.
  destruct (Unmarshal _ payload) as [m|]; [|done].
  by rewrite (signingStage_deterministic g true false route route m m).
Qed.

(** Property X16.  When the selected engine finds no proxy key (empty key
    PEM for rust, nil key otherwise), the signature to be written is the
    bytes of 'proxy_signed_' followed by the payload bytes, and no signing
    function of either backend is called. *)
Theorem missing_key_writes_mock_signature g isReq route m :
  ¬ keyConfigured g →
  result (signingStage g isReq route m) =
    list_byte_of_string "proxy_signed_"
    ++ getBytesField m (PayloadField (Envelope route)) ∧
  quiet is_sign (trace (signingStage g isReq route m)).
Proof.
  unfold keyConfigured, signingStage.
  destruct (String.eqb (cryptoEngine g) "rust"); intros Hkey.
  - assert (proxyPrivateKeyPEM g = []) as Hpem.
    { destruct (proxyPrivateKeyPEM g); [done|]. by destruct Hkey. }
    unfold rustEngine. rewrite Hpem. cbn [length Nat.eqb negb]. run.
    split; [done|]. apply quiet_app; [|by repeat constructor].
    destruct (_ && _); run; [|by repeat constructor].
    apply quiet_app; [|by destruct (result _); repeat constructor].
    unfold RustVerifySignature. destruct (_ || _); by repeat constructor.
  - assert (proxyPrivateKey g = None) as Hnone.
    { destruct (proxyPrivateKey g); [|done]. destruct Hkey. by eexists. }
    unfold goEngine. rewrite Hnone. run.
    split; [done|]. apply quiet_app; [|by repeat constructor].
    destruct (_ && _); by repeat constructor.
Qed.

Lemma RustVerifySignature_no_native payload sig pem :
  quiet is_native_sign (trace (RustVerifySignature payload sig pem)).
Proof. unfold RustVerifySignature. destruct (_ || _); by repeat constructor. Qed.

Lemma RustSignPayload_no_native payload pem :
  quiet is_native_sign (trace (RustSignPayload payload pem)).
Proof.
  unfold RustSignPayload. destruct (_ || _); [apply quiet_nil|].
  run. apply quiet_app; [by repeat constructor|].
  destruct (sign_payload payload pem) as [[] [sig|]]; by repeat constructor.
Qed.

Lemma rustEngine_no_native g dir payloadBytes clientSig :
  quiet is_native_sign (trace (rustEngine g dir payloadBytes clientSig)).
Proof.
  unfold rustEngine. run. apply quiet_app.
  - destruct (_ && _); run; [|by repeat constructor].
    apply quiet_app; [apply RustVerifySignature_no_native|].
    destruct (result _); by repeat constructor.
  - destruct (negb _); run; [|by repeat constructor].
    apply quiet_app; [by repeat constructor|].
    apply quiet_app; [apply RustSignPayload_no_native|apply quiet_nil].
Qed.

Lemma goEngine_no_ffi g dir payloadBytes clientSig :
  quiet is_ffi (trace (goEngine g dir payloadBytes clientSig)).
Proof.
  unfold goEngine. run. apply quiet_app.
  - destruct (_ && _); by repeat constructor.
  - destruct (proxyPrivateKey g); run; [|by repeat constructor].
    destruct (rsa_SignPKCS1v15 _ _); by repeat constructor.
Qed.

Lemma inspectInner_quiet P g dir payloadBytes typeURL :
  (∀ data, P (Call (Dyn_Unmarshal data)) = false) →
  (∀ l, P (Log l) = false) →
  quiet P (trace (inspectInner g dir payloadBytes typeURL)).
Proof.
  intros Hd Hl. unfold inspectInner.
  destruct (_ && _); [|apply quiet_nil].
  destruct (findDescByType _ _); [|apply quiet_nil].
  run. apply quiet_app; [by repeat constructor|].
  destruct (Unmarshal _ _); [by repeat constructor|apply quiet_nil].
Qed.

(** Property X17.  processMsg never mixes the engines: with cryptoEngine
    'rust' it never calls rsa.SignPKCS1v15, and with any other value it
    never calls a function of the foreign library. *)
Theorem engines_do_not_cross g method isReq payload route :
  quiet (if String.eqb (cryptoEngine g) "rust" then is_native_sign else is_ffi)
    (trace (processMsg g method isReq payload route)).
Proof.
  set (P := if String.eqb (cryptoEngine g) "rust" then is_native_sign else is_ffi).
  assert (∀ l, P (Log l) = false) as Hlog.
  { intros l. unfold P. by destruct (String.eqb _ _). }
  assert (∀ data, P (Call (Dyn_Unmarshal data)) = false) as Hdec.
  { intros l. unfold P. by destruct (String.eqb _ _). }
  assert (P (Call Dyn_Marshal) = false) as Henc.
  { unfold P. by destruct (String.eqb _ _). }
  unfold processMsg.
  destruct (methodDescriptors g !! method) as [md|]; run;
    [|by repeat constructor].
  apply quiet_app; [by repeat constructor|].
  destruct (Unmarshal _ payload) as [m|]; run; [|by repeat constructor].
  apply quiet_app; [by repeat constructor|].
  apply quiet_app; [by apply inspectInner_quiet|].
  destruct (String.eqb (Mode route) "inspect-verify-sign"); [|apply quiet_nil].
  run. apply quiet_app.
  - unfold P. destruct (String.eqb (cryptoEngine g) "rust");
      [apply rustEngine_no_native|apply goEngine_no_ffi].
  - destruct (TrySetFieldByName _ _ _); run; [|by repeat constructor].
    apply quiet_app; [by repeat constructor|].
    destruct (Marshal _); by repeat constructor.
Qed.

(** Property X18.  With the rust engine, a message whose payload field reads
    empty never reaches the foreign library, neither for verification nor
    for signing, and with a key configured the signature to be written is
    empty. *)
Theorem foreign_engine_skips_empty_payload g isReq route m :
  cryptoEngine g = "rust" →
  getBytesField m (PayloadField (Envelope route)) = [] →
  quiet is_ffi (trace (signingStage g isReq route m)) ∧
  (proxyPrivateKeyPEM g ≠ [] → result (signingStage g isReq route m) = []).
Proof.
  intros Hengine Hpayload. unfold signingStage. rewrite Hengine, Hpayload.
  change ("rust" =? "rust")%string with true. cbv iota.
  unfold rustEngine. run. split.
  - apply quiet_app.
    + destruct (_ && _); run; [|by repeat constructor].
      rewrite RustVerifySignature_zero_length by (by left). by repeat constructor.
    + destruct (negb _); run; [|by repeat constructor].
      rewrite RustSignPayload_zero_length by (by left). by repeat constructor.
  - intros Hpem. destruct (proxyPrivateKeyPEM g); [done|].
    cbn [length Nat.eqb negb]. run.
    by rewrite RustSignPayload_zero_length by (by left).
Qed.

(** Property X19.  With the rust engine, when the client signature field
    reads empty or no public-key PEM is cached, no verification is attempted
    and the line 'NO client signature or trust store configured' is logged. *)
Theorem foreign_verify_needs_signature_and_key g isReq route m :
  cryptoEngine g = "rust" →
  getBytesField m (ClientSigField (Envelope route)) = [] ∨ clientPublicKeyPEM g = [] →
  quiet is_verify (trace (signingStage g isReq route m)) ∧
  Log (NoClientSigOrTrustStore (if isReq then "Request" else "Response"))
    ∈ trace (signingStage g isReq route m).
Proof.
  intros Hengine Hempty. unfold signingStage. rewrite Hengine.
  change ("rust" =? "rust")%string with true. cbv iota.
  unfold rustEngine. run.
  assert (negb (length (getBytesField m (ClientSigField (Envelope route))) =? 0)%nat
          && negb (length (clientPublicKeyPEM g) =? 0)%nat = false) as ->.
  { destruct Hempty as [-> | ->]; [done|]. by rewrite andb_false_r. }
  run. split.
  - apply quiet_app; [by repeat constructor|].
    destruct (negb _); run; [|by repeat constructor].
    apply quiet_app; [by repeat constructor|].
    apply quiet_app; [|apply quiet_nil].
    unfold RustSignPayload. destruct (_ || _); [apply quiet_nil|]. run.
    apply quiet_app; [by repeat constructor|].
    destruct (sign_payload _ _) as [[] [sig|]]; by repeat constructor.
  - apply list_elem_of_here.
Qed.

(** Property X20.  RustSignPayload calls free_signature exactly once when it
    returns a signature and never when it returns nil, and it calls
    sign_payload at most once. *)
Theorem signature_buffer_released_iff_returned payload privKeyPEM :
  length (List.filter is_free (trace (RustSignPayload payload privKeyPEM))) =
  (if result (RustSignPayload payload privKeyPEM) is Some _ then 1 else 0) ∧
  (length (List.filter is_sign (trace (RustSignPayload payload privKeyPEM))) ≤ 1)%nat.
Proof.
  unfold RustSignPayload.
  unfold call, logPrintf, mbind, M_bind, mret, M_ret, result, trace.
  destruct (_ || _).
  { split; [done|]. cbn. lia. }
  destruct (sign_payload payload privKeyPEM) as [[] [sig|]]; split; cbn; done || lia.
Qed.

(** Property X21.  If the foreign library's verify accepts every non-empty
    signature its sign returns for a payload and key pair, then for a non-
    empty payload and public key RustVerifySignature returns true on every
    non-empty signature RustSignPayload returned, with exactly one call of
    verify_signature.  An empty signature, which RustSignPayload hands
    through when the library reports success with zero bytes, it rejects
    without calling the library. *)
Theorem wrappers_preserve_round_trip payload privKeyPEM pubKeyPEM sig :
  (∀ s, s ≠ [] → sign_payload payload privKeyPEM = (true, Some s) →
        verify_signature payload s pubKeyPEM = true) →
  payload ≠ [] → pubKeyPEM ≠ [] →
  result (RustSignPayload payload privKeyPEM) = Some sig →
  sign_payload payload privKeyPEM = (true, Some sig) ∧
  RustVerifySignature payload sig pubKeyPEM =
    match sig with
    | [] => (false, [])
    | _ :: _ => (true, [Call (FFI_verify_signature payload sig pubKeyPEM)])
    end.
Proof.
  intros Hlaw Hp Hk Hsig.
  unfold RustSignPayload in Hsig.
  destruct (_ || _); [done|]. revert Hsig. run.
  destruct (sign_payload payload privKeyPEM) as [[] [s|]] eqn:Hs; run; try done.
  intros [= ->]. split; [done|].
  destruct sig as [|b sig].
  - by rewrite RustVerifySignature_zero_length by (right; by left).
  - by rewrite RustVerifySignature_calls, Hlaw.
Qed.

(** Property X22.  For a reflection library obeying the read/write contract
    and a non-empty field name, getBytesField reads back the bytes just
    written by TrySetFieldByName, and getBytesField and getStringField read
    every other field as before the write. *)
Theorem written_bytes_read_back {Hlaws : DynamicLaws} m name b m' :
  name ≠ "" →
  TrySetFieldByName m name (VBytes b) = Some m' →
  getBytesField m' name = b ∧
  ∀ other, other ≠ name →
    getBytesField m' other = getBytesField m other ∧
    getStringField m' other = getStringField m other.
Proof.
  intros Hname Hset. split.
  - unfold getBytesField. destruct (String.eqb_spec name ""); [done|].
    by rewrite (TrySet_read_same _ _ _ _ Hset).
  - intros other Hother. unfold getBytesField, getStringField.
    by rewrite (TrySet_read_other _ _ _ _ _ Hset Hother).
Qed.

End ProcessorFacts.

(** ** The registry *)

Section RegistryFacts.
Context `{DynamicLib} `{CryptoLib}.

Lemma findDescByType_in_Some mds suffixName d :
  findDescByType_in mds suffixName = Some d →
  ∃ k md, (k, md) ∈ mds ∧ (d = GetInputType md ∨ d = GetOutputType md) ∧
          HasSuffix (GetFullyQualifiedName d) suffixName = true.
Proof.
  induction mds as [|[k md] mds IH]; simpl; [done|].
  destruct (HasSuffix (GetFullyQualifiedName (GetInputType md)) suffixName) eqn:Hin.
  { intros [= <-]. exists k, md. split; [apply list_elem_of_here|auto]. }
  destruct (HasSuffix (GetFullyQualifiedName (GetOutputType md)) suffixName) eqn:Hout.
  { intros [= <-]. exists k, md. split; [apply list_elem_of_here|auto]. }
  intros (k' & md' & Hel & Hrest)%IH. exists k', md'.
  split; [by apply list_elem_of_further|done].
Qed.

Lemma findDescByType_in_None mds suffixName :
  findDescByType_in mds suffixName = None ↔
  ∀ k md, (k, md) ∈ mds →
    HasSuffix (GetFullyQualifiedName (GetInputType md)) suffixName = false ∧
    HasSuffix (GetFullyQualifiedName (GetOutputType md)) suffixName = false.
Proof.
  induction mds as [|[k md] mds IH]; simpl.
  - split; [|done]. by intros _ k md ?%elem_of_nil.
  - destruct (HasSuffix (GetFullyQualifiedName (GetInputType md)) suffixName) eqn:Hin.
    { split; [done|]. intros Hall.
      destruct (Hall k md (list_elem_of_here _ _)) as [? _]. congruence. }
    destruct (HasSuffix (GetFullyQualifiedName (GetOutputType md)) suffixName) eqn:Hout.
    { split; [done|]. intros Hall.
      destruct (Hall k md (list_elem_of_here _ _)) as [_ ?]. congruence. }
    rewrite IH. split.
    + intros Hall k' md' [[= -> ->]|Hel]%elem_of_cons; [done|by apply (Hall k')].
    + intros Hall k' md' Hel. apply (Hall k'). by apply list_elem_of_further.
Qed.

(** Property X23.  A descriptor returned by findDescByType is the input or
    output type of a registered method and its fully-qualified name ends
    with the requested suffix. *)
Theorem findDescByType_sound g suffixName d :
  findDescByType g suffixName = Some d →
  ∃ method md,
    methodDescriptors g !! method = Some md ∧
    (d = GetInputType md ∨ d = GetOutputType md) ∧
    HasSuffix (GetFullyQualifiedName d) suffixName = true.
Proof.
  intros (k & md & Hel & Hrest)%findDescByType_in_Some.
  exists k, md. split; [by apply elem_of_map_to_list|done].
Qed.

(** Property X24.  findDescByType returns nil exactly when no registered
    method has an input or output type whose fully-qualified name ends with
    the suffix. *)
Theorem findDescByType_None_iff g suffixName :
  findDescByType g suffixName = None ↔
  ∀ method md, methodDescriptors g !! method = Some md →
    HasSuffix (GetFullyQualifiedName (GetInputType md)) suffixName = false ∧
    HasSuffix (GetFullyQualifiedName (GetOutputType md)) suffixName = false.
Proof.
  unfold findDescByType. rewrite findDescByType_in_None.
  split; intros Hall k md Hk; apply (Hall k md); by apply elem_of_map_to_list.
Qed.

Lemma lastSegment_aux_trailing sep s acc :
  lastSegment_aux sep (s +:+ String sep "") acc = "".
Proof.
  revert acc. induction s as [|c s IH]; intros acc; simpl.
  - by rewrite Ascii.eqb_refl.
  - destruct (Ascii.eqb c sep); apply IH.
Qed.

Lemma HasSuffix_empty s : HasSuffix s "" = true.
Proof.
  apply HasSuffix_spec. exists s. induction s as [|c s IH]; [done|].
  change (String c s +:+ "") with (String c (s +:+ "")). by f_equal.
Qed.

(** Property X25.  A type URL that ends in a slash has the empty type
    suffix, and for the empty suffix findDescByType returns a descriptor
    unless the registry is empty. *)
Theorem trailing_slash_selects_any_type g typeURL :
  lastSegment "/" (typeURL +:+ "/") = "" ∧
  (findDescByType g (lastSegment "/" (typeURL +:+ "/")) = None ↔
   methodDescriptors g = ∅).
Proof.
  assert (lastSegment "/" (typeURL +:+ "/") = "") as ->
    by apply lastSegment_aux_trailing.
  split; [done|]. rewrite findDescByType_None_iff. split.
  - intros Hall. apply map_empty. intros k.
    destruct (methodDescriptors g !! k) as [md|] eqn:Hk; [|done].
    destruct (Hall k md Hk) as [Hin _]. by rewrite HasSuffix_empty in Hin.
  - intros -> k md Hk. by rewrite lookup_empty in Hk.
Qed.

End RegistryFacts.

(** ** The loaders and start-up *)

Section StartupFacts.
Context `{StartupLib}.

Lemma foldl_lookup_sound {A} (step : gmap string MethodDescriptor → A → gmap string MethodDescriptor)
    (P : A → string → MethodDescriptor → Prop) l res k md :
  (∀ res a k md, step res a !! k = Some md → P a k md ∨ res !! k = Some md) →
  foldl step res l !! k = Some md →
  (∃ a, a ∈ l ∧ P a k md) ∨ res !! k = Some md.
Proof.
  intros Hstep. revert res. induction l as [|a l IH]; intros res; simpl; [auto|].
  intros [(a' & Hel & HP)|Hres]%IH.
  - left. exists a'. split; [by apply list_elem_of_further|done].
  - apply Hstep in Hres as [HP|Hres]; [|auto].
    left. exists a. split; [apply list_elem_of_here|done].
Qed.

Lemma foldl_lookup_complete {A} (step : gmap string MethodDescriptor → A → gmap string MethodDescriptor)
    (Q : A → string → Prop) l res a k :
  (∀ res a, Q a k → is_Some (step res a !! k)) →
  (∀ res a, is_Some (res !! k) → is_Some (step res a !! k)) →
  a ∈ l → Q a k → is_Some (foldl step res l !! k).
Proof.
  intros Hadd Hkeep Hel HQ.
  assert (∀ l res, is_Some (res !! k) → is_Some (foldl step res l !! k)) as Hmono.
  { clear -Hkeep. induction l as [|b l IH]; intros res Hres; simpl; [done|].
    by apply IH, Hkeep. }
  revert res. induction l as [|b l IH]; intros res; [by apply elem_of_nil in Hel|].
  simpl. apply elem_of_cons in Hel as [<-|Hel]; [|by apply IH].
  by apply Hmono, Hadd.
Qed.

Lemma indexMethods_sound svcName methods res k md :
  indexMethods svcName methods res !! k = Some md →
  (∃ name, (name, md) ∈ methods ∧ k = fullMethod svcName name) ∨
  res !! k = Some md.
Proof.
  intros Hk. unfold indexMethods in Hk.
  apply (foldl_lookup_sound _
           (λ m k md, m.2 = md ∧ k = fullMethod svcName m.1)) in Hk
    as [([name md'] & Hel & <- & ->)|?]; [left; by exists name|by right|].
  intros res' [name md'] k' md'' Hl. simpl in *.
  destruct (decide (fullMethod svcName name = k')) as [<-|Hne].
  - rewrite lookup_insert_eq in Hl. left. by simplify_eq.
  - rewrite lookup_insert_ne in Hl by done. by right.
Qed.

Lemma indexMethods_keeps svcName methods res k :
  is_Some (res !! k) → is_Some (indexMethods svcName methods res !! k).
Proof.
  revert res. unfold indexMethods.
  induction methods as [|m methods IH]; intros res Hres; simpl; [done|].
  apply IH. destruct (decide (fullMethod svcName m.1 = k)) as [<-|Hne].
  - rewrite lookup_insert_eq. by eexists.
  - by rewrite lookup_insert_ne.
Qed.

Lemma indexMethods_complete svcName methods res name md :
  (name, md) ∈ methods →
  is_Some (indexMethods svcName methods res !! fullMethod svcName name).
Proof.
  intros Hel. unfold indexMethods.
  apply (foldl_lookup_complete _ (λ m k, k = fullMethod svcName m.1)
           methods res (name, md)); [| |done..].
  - intros res' m ->. rewrite lookup_insert_eq. by eexists.
  - intros res' m Hres.
    destruct (decide (fullMethod svcName m.1 = fullMethod svcName name)) as [->|Hne].
    + rewrite lookup_insert_eq. by eexists.
    + by rewrite lookup_insert_ne.
Qed.

(** Property X26.  The registry built by loadFromPB has an entry for
    /service/method for every method of every service of every file, and
    every entry it has is such a method under such a key. *)
Theorem indexFiles_lookup fdMap :
  (∀ k md, indexFiles fdMap !! k = Some md →
     ∃ fd svc name, fd ∈ fdMap ∧ svc ∈ GetServices fd ∧
       (name, md) ∈ svc_GetMethods svc ∧
       k = fullMethod (svc_GetFullyQualifiedName svc) name) ∧
  (∀ fd svc name md, fd ∈ fdMap → svc ∈ GetServices fd →
     (name, md) ∈ svc_GetMethods svc →
     is_Some (indexFiles fdMap !!
                fullMethod (svc_GetFullyQualifiedName svc) name)).
Proof.
  split.
  - intros k md Hk. unfold indexFiles in Hk.
    apply (foldl_lookup_sound _
             (λ fd k md, ∃ svc name, svc ∈ GetServices fd ∧
                (name, md) ∈ svc_GetMethods svc ∧
                k = fullMethod (svc_GetFullyQualifiedName svc) name)) in Hk
      as [(fd & Hfd & svc & name & ?)|Hk].
    + by exists fd, svc, name.
    + by rewrite lookup_empty in Hk.
    + clear. intros res fd k md Hk.
      apply (foldl_lookup_sound _
               (λ svc k md, ∃ name, (name, md) ∈ svc_GetMethods svc ∧
                  k = fullMethod (svc_GetFullyQualifiedName svc) name)) in Hk
        as [(svc & Hsvc & name & ?)|Hk]; [left; by exists svc, name|by right|].
      clear. intros res svc k md Hk. by apply indexMethods_sound in Hk.
  - intros fd svc name md Hfd Hsvc Hm. unfold indexFiles.
    apply (foldl_lookup_complete _
             (λ fd k, ∃ svc name md, svc ∈ GetServices fd ∧
                (name, md) ∈ svc_GetMethods svc ∧
                k = fullMethod (svc_GetFullyQualifiedName svc) name)
             fdMap ∅ fd); [| |done|by exists svc, name, md].
    + intros res fd' (svc' & name' & md' & Hsvc' & Hm' & Hk).
      apply (foldl_lookup_complete _
               (λ svc k, ∃ name md, (name, md) ∈ svc_GetMethods svc ∧
                  k = fullMethod (svc_GetFullyQualifiedName svc) name)
               _ res svc'); [| |done|by exists name', md'].
      * intros res' svc'' (name'' & md'' & Hm'' & ->).
        by eapply indexMethods_complete.
      * intros res' svc''. apply indexMethods_keeps.
    + intros res fd' Hres. revert res Hres.
      induction (GetServices fd') as [|svc' svcs IH]; intros res Hres; simpl; [done|].
      by apply IH, indexMethods_keeps.
Qed.

(** Property X27.  Every entry of the registry built by loadFromReflection
    is a method of a listed service other than the reflection service, which
    resolved, under the key /listed-name/method. *)
Theorem indexReflected_sound addr svcs k md :
  indexReflected addr svcs !! k = Some md →
  ∃ svcName sd name,
    svcName ∈ svcs ∧
    svcName ≠ "grpc.reflection.v1alpha.ServerReflection" ∧
    grpcreflect_ResolveService addr svcName = Some sd ∧
    (name, md) ∈ svc_GetMethods sd ∧
    k = fullMethod svcName name.
Proof.
  intros Hk. unfold indexReflected in Hk.
  apply (foldl_lookup_sound _
           (λ svcName k md, ∃ sd name,
              svcName ≠ "grpc.reflection.v1alpha.ServerReflection" ∧
              grpcreflect_ResolveService addr svcName = Some sd ∧
              (name, md) ∈ svc_GetMethods sd ∧ k = fullMethod svcName name)) in Hk
    as [(svcName & Hel & sd & name & ?)|Hk].
  - by exists svcName, sd, name.
  - by rewrite lookup_empty in Hk.
  - clear. intros res svcName k md Hk.
    destruct (String.eqb_spec svcName "grpc.reflection.v1alpha.ServerReflection");
      [by right|].
    destruct (grpcreflect_ResolveService addr svcName) as [sd|] eqn:Hsd; [|by right].
    apply indexMethods_sound in Hk as [(name & ? & ?)|?]; [left|by right].
    by exists sd, name.
Qed.

(** Property X28.  When the private key is loaded without a fatal error,
    either no key path is configured (nil key, empty PEM), or the PEM kept
    is the file's content, its first PEM block parsed as an RSA key in
    PKCS#8, or failed to parse as PKCS#8 and parsed as PKCS#1. *)
Theorem loaded_private_key_is_rsa path key keyBytes :
  loadPrivateKey path = inr (key, keyBytes) →
  (path = "" ∧ key = None ∧ keyBytes = []) ∨
  (path ≠ "" ∧ os_ReadFile path = Some keyBytes ∧
   ∃ k block, key = Some k ∧ pem_Decode keyBytes = Some block ∧
     (x509_ParsePKCS8PrivateKey block = Some (RSAKey k) ∨
      (x509_ParsePKCS8PrivateKey block = None ∧
       x509_ParsePKCS1PrivateKey block = Some k))).
Proof.
  unfold loadPrivateKey.
  destruct (String.eqb_spec path "") as [->|Hpath].
  { intros [= <- <-]. by left. }
  intros Hload. right. split; [done|].
  destruct (os_ReadFile path) as [b|]; [|done]. cbn in Hload.
  destruct (pem_Decode b) as [block|] eqn:Hblock; [|done]. cbn in Hload.
  destruct (x509_ParsePKCS8PrivateKey block) as [[k|]|] eqn:Hpkcs8; cbn in Hload.
  - injection Hload as <- <-. split; [done|]. exists k, block. auto.
  - done.
  - destruct (x509_ParsePKCS1PrivateKey block) as [k|] eqn:Hpkcs1; [|done].
    cbn in Hload. injection Hload as <- <-. split; [done|].
    exists k, block. auto.
Qed.

(** Property X29.  If start-up reaches the server (pem.Decode finding no
    block in empty input), the schema method is pb or reflect, routes and
    engine are those of the configuration and the flag, the trust pool and
    the key are set exactly when their paths are configured, a cached
    public-key PEM implies a trust pool, and the native and the foreign key
    test agree. *)
Theorem startup_postcondition configPath engineFlag g :
  pem_Decode [] = None →
  main_startup configPath engineFlag = inr g →
  ∃ b appConfig,
    os_ReadFile configPath = Some b ∧ yaml_Unmarshal b = Some appConfig ∧
    (Schema_Method appConfig = "pb" ∨ Schema_Method appConfig = "reflect") ∧
    appConfig_Routes g = Routes appConfig ∧
    cryptoEngine g = engineFlag ∧
    (is_Some (clientTrustPool g) ↔ CMS_ClientTrustStore appConfig ≠ "") ∧
    (clientPublicKeyPEM g ≠ [] → is_Some (clientTrustPool g)) ∧
    (is_Some (proxyPrivateKey g) ↔ CMS_ProxyPrivateKey appConfig ≠ "") ∧
    (is_Some (proxyPrivateKey g) ↔ proxyPrivateKeyPEM g ≠ []).
Proof.
  intros Hpem. unfold main_startup.
  destruct (os_ReadFile configPath) as [b|]; [|done]. cbn.
  destruct (yaml_Unmarshal b) as [cfg|] eqn:Hcfg; [|done]. cbn.
  intros Hmain. exists b, cfg. split; [done|]. split; [done|].
  assert (Schema_Method cfg = "pb" ∨ Schema_Method cfg = "reflect") as Hschema.
  { destruct (String.eqb_spec (Schema_Method cfg) "pb"); [by left|].
    destruct (String.eqb_spec (Schema_Method cfg) "reflect"); [by right|done]. }
  split; [done|].
  destruct (if String.eqb (Schema_Method cfg) "pb" then _ else _) as [?|mds];
    [done|]. cbn in Hmain.
  destruct (loadTrustStore (CMS_ClientTrustStore cfg)) as [?|[pool pub]] eqn:Htrust;
    [done|]. cbn in Hmain.
  destruct (loadPrivateKey (CMS_ProxyPrivateKey cfg)) as [?|[key keyBytes]] eqn:Hkey;
    [done|]. cbn in Hmain.
  injection Hmain as <-. cbn.
  split; [done|]. split; [done|].
  unfold loadTrustStore in Htrust.
  apply loaded_private_key_is_rsa in Hkey.
  repeat split.
  - intros Hpool Hpath. rewrite Hpath in Htrust. cbn in Htrust.
    injection Htrust as <- <-. by destruct Hpool.
  - intros Hpath.
    destruct (String.eqb_spec (CMS_ClientTrustStore cfg) ""); [done|].
    destruct (os_ReadFile _); [|done]. cbn in Htrust.
    destruct (x509_AppendCertsFromPEM _); [|done]. cbn in Htrust.
    injection Htrust as <- <-. by eexists.
  - intros Hpub.
    destruct (String.eqb_spec (CMS_ClientTrustStore cfg) "").
    { injection Htrust as <- <-. done. }
    destruct (os_ReadFile _); [|done]. cbn in Htrust.
    destruct (x509_AppendCertsFromPEM _); [|done]. cbn in Htrust.
    injection Htrust as <- <-. by eexists.
  - intros Hk. destruct Hkey as [(_ & -> & _)|(? & _)]; [by destruct Hk|done].
  - intros Hpath. destruct Hkey as [(? & _)|(_ & _ & k & _ & -> & _)]; [done|by eexists].
  - intros Hk. destruct Hkey as [(_ & -> & _)|(_ & _ & k & block & _ & Hb & _)];
      [by destruct Hk|]. intros ->. congruence.
  - intros Hb. destruct Hkey as [(_ & _ & ->)|(_ & _ & k & _ & -> & _)];
      [done|by eexists].
Qed.

End StartupFacts.

(** ** The further properties on the example deployment *)

Section MoreScenarios.
Import Wire SmallRSA Echo WireFacts Boot.

Lemma matchRoute_returns_first_match_witness :
  matchRoute ([passThruRoute; inspectOuterRoute] ++ secureRoute :: [catchAllRoute])
    "/echo.SecureService/SecureEcho" = secureRoute.
Proof.
  apply (matchRoute_returns_first_match [passThruRoute; inspectOuterRoute]
           secureRoute [catchAllRoute] "/echo.SecureService/SecureEcho").
  - repeat constructor.
  - reflexivity.
Defined.

Lemma catch_all_rule_leaves_no_default_witness :
  matchRoute [passThruRoute; catchAllRoute] "/billing.Invoices/List"
  ∈ [passThruRoute; catchAllRoute].
Proof.
  apply (catch_all_rule_leaves_no_default [passThruRoute; catchAllRoute]
           catchAllRoute "/billing.Invoices/List").
  - apply list_elem_of_further, list_elem_of_here.
  - reflexivity.
Defined.

Lemma pump_without_send_error_witness :
  result (pumpLoop goProxy "/echo.SecureService/SecureEcho" secureRoute true
            [envelopeFrame; truncatedFrame] EOF allSent 0)
  = (forwardOf goProxy "/echo.SecureService/SecureEcho" secureRoute true
       <$> [envelopeFrame; truncatedFrame], EOF).
Proof.
  apply (pump_without_send_error goProxy "/echo.SecureService/SecureEcho"
           secureRoute true [envelopeFrame; truncatedFrame] EOF allSent 0).
  intros k Hk. reflexivity.
Defined.

Lemma pump_stops_at_send_error_witness :
  result (pumpLoop goProxy "/echo.SecureService/SecureEcho" secureRoute true
            [envelopeFrame; signedFrame; forgedFrame] EOF
            (sendFailsAt 1 (Failed "transport is closing")) 0)
  = (forwardOf goProxy "/echo.SecureService/SecureEcho" secureRoute true
       <$> take 1 [envelopeFrame; signedFrame; forgedFrame],
     Failed "transport is closing") ∧
  pumpLoop goProxy "/echo.SecureService/SecureEcho" secureRoute true
    [envelopeFrame; signedFrame; forgedFrame] EOF
    (sendFailsAt 1 (Failed "transport is closing")) 0
  = pumpLoop goProxy "/echo.SecureService/SecureEcho" secureRoute true
      (take 2 [envelopeFrame; signedFrame; forgedFrame]) (Failed "reset")
      (sendFailsAt 1 (Failed "transport is closing")) 0.
Proof.
  apply (pump_stops_at_send_error goProxy "/echo.SecureService/SecureEcho"
           secureRoute true [envelopeFrame; signedFrame; forgedFrame] EOF
           (Failed "reset") (sendFailsAt 1 (Failed "transport is closing")) 0 1
           (Failed "transport is closing")).
  - simpl. lia.
  - intros j Hj. destruct j; [reflexivity|lia].
  - reflexivity.
Defined.

Lemma unmatched_method_is_proxied_verbatim_witness :
  pumpLoop goProxy "/billing.Invoices/List"
    (matchRoute (appConfig_Routes goProxy) "/billing.Invoices/List") false
    [envelopeFrame; echoFrame] EOF allSent 0
  = (([envelopeFrame; echoFrame], EOF), []).
Proof.
  apply (unmatched_method_is_proxied_verbatim goProxy "/billing.Invoices/List"
           false [envelopeFrame; echoFrame] EOF allSent 0).
  - repeat constructor.
  - intros k Hk. reflexivity.
Defined.

Lemma other_modes_only_inspect_witness :
  result (processMsg rustProxy "/echo.SecureService/SecureEcho" true signedFrame
            misspelledRoute) = signedFrame ∧
  quiet is_encode
    (trace (processMsg rustProxy "/echo.SecureService/SecureEcho" true signedFrame
              misspelledRoute)) ∧
  quiet is_crypto
    (trace (processMsg rustProxy "/echo.SecureService/SecureEcho" true signedFrame
              misspelledRoute)).
Proof.
  apply (other_modes_only_inspect rustProxy "/echo.SecureService/SecureEcho"
           true signedFrame misspelledRoute).
  discriminate.
Defined.

Lemma forwarded_bytes_ignore_other_route_fields_witness :
  result (processMsg rustProxy "/echo.SecureService/SecureEcho" true signedFrame
            secureRoute)
  = result (processMsg rustProxy "/echo.SecureService/SecureEcho" true signedFrame
              bareRoute).
Proof.
  apply (forwarded_bytes_ignore_other_route_fields rustProxy
           "/echo.SecureService/SecureEcho" true signedFrame secureRoute bareRoute);
    reflexivity.
Defined.

Lemma transform_is_the_same_in_both_directions_witness :
  result (processMsg goProxy "/echo.SecureService/SecureEcho" true envelopeFrame
            secureRoute)
  = result (processMsg goProxy "/echo.SecureService/SecureEcho" false envelopeFrame
              secureRoute).
Proof.
  apply (transform_is_the_same_in_both_directions goProxy
           "/echo.SecureService/SecureEcho"
           (mkMethod dynamic SecureEnvelope SecureEnvelope) envelopeFrame secureRoute).
  - vm_compute. reflexivity.
  - reflexivity.
Defined.

Lemma missing_key_writes_mock_signature_witness :
  result (signingStage keylessProxy true secureRoute
            (mkMsg SecureEnvelope [(1%positive, abc)]))
  = list_byte_of_string "proxy_signed_abc" ∧
  quiet is_sign
    (trace (signingStage keylessProxy true secureRoute
              (mkMsg SecureEnvelope [(1%positive, abc)]))).
Proof.
  apply (missing_key_writes_mock_signature keylessProxy true secureRoute
           (mkMsg SecureEnvelope [(1%positive, abc)])).
  intros Hkey. apply Hkey. reflexivity.
Defined.

Lemma foreign_engine_skips_empty_payload_witness :
  quiet is_ffi
    (trace (signingStage rustProxy true secureRoute
              (mkMsg SecureEnvelope [(3%positive, clientSig)]))) ∧
  (proxyPrivateKeyPEM rustProxy ≠ [] →
   result (signingStage rustProxy true secureRoute
             (mkMsg SecureEnvelope [(3%positive, clientSig)])) = []).
Proof.
  apply (foreign_engine_skips_empty_payload rustProxy true secureRoute
           (mkMsg SecureEnvelope [(3%positive, clientSig)])).
  - reflexivity.
  - vm_compute. reflexivity.
Defined.

Lemma foreign_verify_needs_signature_and_key_witness :
  quiet is_verify
    (trace (signingStage rustProxy false secureRoute
              (mkMsg SecureEnvelope [(1%positive, abc)]))) ∧
  Log (NoClientSigOrTrustStore "Response")
    ∈ trace (signingStage rustProxy false secureRoute
               (mkMsg SecureEnvelope [(1%positive, abc)])).
Proof.
  apply (foreign_verify_needs_signature_and_key rustProxy false secureRoute
           (mkMsg SecureEnvelope [(1%positive, abc)])).
  - reflexivity.
  - left. vm_compute. reflexivity.
Defined.

Lemma wrappers_preserve_round_trip_witness :
  sign_payload abc privateKeyPEM = (true, Some clientSig) ∧
  RustVerifySignature abc clientSig SmallRSA.publicKeyPEM
  = (true, [Call (FFI_verify_signature abc clientSig SmallRSA.publicKeyPEM)]).
Proof.
  apply (wrappers_preserve_round_trip abc privateKeyPEM SmallRSA.publicKeyPEM
           clientSig).
  - intros s _ Hs. vm_compute in Hs. injection Hs as <-.
    vm_compute. reflexivity.
  - discriminate.
  - discriminate.
  - vm_compute. reflexivity.
Defined.

Lemma written_bytes_read_back_witness :
  getBytesField
    (mkMsg SecureEnvelope [(1%positive, abc); (4%positive, [x04; x94])])
    "proxy_signature" = [x04; x94] ∧
  ∀ other, other ≠ "proxy_signature" →
    getBytesField
      (mkMsg SecureEnvelope [(1%positive, abc); (4%positive, [x04; x94])]) other
    = getBytesField (mkMsg SecureEnvelope [(1%positive, abc)]) other ∧
    getStringField
      (mkMsg SecureEnvelope [(1%positive, abc); (4%positive, [x04; x94])]) other
    = getStringField (mkMsg SecureEnvelope [(1%positive, abc)]) other.
Proof.
  apply (written_bytes_read_back (Hlaws := laws)
           (mkMsg SecureEnvelope [(1%positive, abc)]) "proxy_signature"
           [x04; x94]).
  - discriminate.
  - reflexivity.
Defined.

Lemma findDescByType_sound_witness :
  ∃ method md,
    methodDescriptors goProxy !! method = Some md ∧
    (EchoRequest = GetInputType md ∨ EchoRequest = GetOutputType md) ∧
    HasSuffix (GetFullyQualifiedName EchoRequest) "EchoRequest" = true.
Proof.
  apply (findDescByType_sound goProxy "EchoRequest" EchoRequest).
  vm_compute. reflexivity.
Defined.

Lemma indexReflected_sound_witness :
  ∃ svcName sd name,
    svcName ∈ [ "grpc.reflection.v1alpha.ServerReflection";
                "echo.EchoService"; "echo.SecureService"; "echo.Retired" ] ∧
    svcName ≠ "grpc.reflection.v1alpha.ServerReflection" ∧
    grpcreflect_ResolveService "localhost:9090" svcName = Some sd ∧
    (name, mkMethod dynamic SecureEnvelope SecureEnvelope) ∈ svc_GetMethods sd ∧
    "/echo.SecureService/InspectOuter" = fullMethod svcName name.
Proof.
  apply (@indexReflected_sound dynamic crypto startup "localhost:9090"
           [ "grpc.reflection.v1alpha.ServerReflection";
             "echo.EchoService"; "echo.SecureService"; "echo.Retired" ]
           "/echo.SecureService/InspectOuter"
           (mkMethod dynamic SecureEnvelope SecureEnvelope)).
  vm_compute. reflexivity.
Defined.

Lemma loaded_private_key_is_rsa_witness :
  ("certs/proxy.key" = "" ∧ Some privateKey = None ∧ privateKeyPEM = []) ∨
  ("certs/proxy.key" ≠ "" ∧ os_ReadFile "certs/proxy.key" = Some privateKeyPEM ∧
   ∃ k block, Some privateKey = Some k ∧ pem_Decode privateKeyPEM = Some block ∧
     (x509_ParsePKCS8PrivateKey block = Some (RSAKey k) ∨
      (x509_ParsePKCS8PrivateKey block = None ∧
       x509_ParsePKCS1PrivateKey block = Some k))).
Proof.
  apply (@loaded_private_key_is_rsa dynamic crypto startup "certs/proxy.key"
           (Some privateKey) privateKeyPEM).
  vm_compute. reflexivity.
Defined.

Lemma startup_postcondition_witness :
  ∃ b appConfig,
    os_ReadFile "config.yaml" = Some b ∧ yaml_Unmarshal b = Some appConfig ∧
    (Schema_Method appConfig = "pb" ∨ Schema_Method appConfig = "reflect") ∧
    appConfig_Routes (booted "rust") = Routes appConfig ∧
    cryptoEngine (booted "rust") = "rust" ∧
    (is_Some (clientTrustPool (booted "rust")) ↔
     CMS_ClientTrustStore appConfig ≠ "") ∧
    (clientPublicKeyPEM (booted "rust") ≠ [] →
     is_Some (clientTrustPool (booted "rust"))) ∧
    (is_Some (proxyPrivateKey (booted "rust")) ↔
     CMS_ProxyPrivateKey appConfig ≠ "") ∧
    (is_Some (proxyPrivateKey (booted "rust")) ↔
     proxyPrivateKeyPEM (booted "rust") ≠ []).
Proof.
  apply (@startup_postcondition dynamic crypto startup "config.yaml" "rust"
           (booted "rust")).
  - reflexivity.
  - reflexivity.
Defined.

End MoreScenarios.
